(** * Image fonts: measurement, layout and the recolouring cache

    A shallow embedding of the [ImageFont] class of
    [@basementuniverse/image-font], with the properties of its
    measurement and drawing methods.  The class exists in two
    revisions: src/index.ts, and the revision printed in src/README.md,
    which adds the colour options and the colour cache to [drawText]
    and is otherwise the same text.  The class below is the revision
    with the cache; [IndexTs] holds [drawText] as src/index.ts has it,
    and the two are shown to agree whenever no colour is asked for.

    Modelling conventions.
    - A JavaScript [number] that the caller supplies (a width, a height,
      a scale, a kerning value, an anchor coordinate) is an exact
      rational [Q]: rounding, overflow and the sign of zero are outside
      the model.  The one non-finite value the class manufactures by
      itself from finite inputs, [Math.max()] of no arguments, is kept:
      computed quantities live in [number], the rationals extended with
      the two infinities and NaN.
    - A JavaScript string is its sequence of UTF-16 code units.
      [text.split('')] and [text[i]] work on code units, [for ... of]
      works on code points (a surrogate pair is one iteration).
    - A plain object used as a record ([Record<string, T>]) is a [gmap]
      keyed by strings; the insertion-ordered [Map] of the colour cache
      is an association list.
    - An optional property is an [option]; a property set to
      [undefined] is not told apart from a property that is absent
      (every read of one in the class goes through [??], [?.], a
      comparison with [undefined] or a truthiness test).
    - A method of the class is a computation in a state monad over
      [World]: the instance ([this]) and the log of calls made on the
      outside world (the canvas context and the recolouring routine). *)

From Stdlib Require Import QArith ZArith NArith List Lia Lqa String Ascii.
From Stdlib Require Import DecimalNat Qround.
From stdpp Require Import gmap list.
Import ListNotations.
Open Scope Q_scope.

(* ------------------------------------------------------------------ *)
(** ** Numbers *)

Inductive number : Type :=
  | Fin (q : Q)
  | PosInfinity
  | NegInfinity
  | NaN.

(** Sameness of two numbers as values: rationals up to [Qeq]. *)
Definition num_eq (a b : number) : Prop :=
  match a, b with
  | Fin p, Fin q => p == q
  | PosInfinity, PosInfinity => True
  | NegInfinity, NegInfinity => True
  | NaN, NaN => True
  | _, _ => False
  end.

Infix "=n=" := num_eq (at level 70, no associativity).

Definition num_opp (a : number) : number :=
  match a with
  | Fin p => Fin (- p)
  | PosInfinity => NegInfinity
  | NegInfinity => PosInfinity
  | NaN => NaN
  end.

(** [a + b] *)
Definition num_add (a b : number) : number :=
  match a, b with
  | NaN, _ | _, NaN => NaN
  | Fin p, Fin q => Fin (p + q)
  | PosInfinity, NegInfinity | NegInfinity, PosInfinity => NaN
  | PosInfinity, _ | _, PosInfinity => PosInfinity
  | NegInfinity, _ | _, NegInfinity => NegInfinity
  end.

(** [a - b] *)
Definition num_sub (a b : number) : number := num_add a (num_opp b).

(** [a / b]; a zero divisor counts as positive zero. *)
Definition num_div (a b : number) : number :=
  match a, b with
  | NaN, _ | _, NaN => NaN
  | Fin p, Fin q =>
      match q ?= 0 with
      | Eq => match p ?= 0 with
              | Eq => NaN
              | Lt => NegInfinity
              | Gt => PosInfinity
              end
      | _ => Fin (p / q)
      end
  | Fin _, _ => Fin 0
  | PosInfinity, Fin q =>
      match q ?= 0 with Lt => NegInfinity | _ => PosInfinity end
  | NegInfinity, Fin q =>
      match q ?= 0 with Lt => PosInfinity | _ => NegInfinity end
  | _, _ => NaN
  end.

(** The larger of two numbers, NaN if either is. *)
Definition num_max (a b : number) : number :=
  match a, b with
  | NaN, _ | _, NaN => NaN
  | PosInfinity, _ | _, PosInfinity => PosInfinity
  | NegInfinity, c | c, NegInfinity => c
  | Fin p, Fin q => if Qle_bool p q then Fin q else Fin p
  end.

(** [Math.max(...values)]: minus infinity when there is no argument. *)
Definition Math_max (values : list number) : number :=
  fold_left num_max values NegInfinity.

(** The sum of a list of rationals, used to state results. *)
Definition Qsum (l : list Q) : Q := fold_right Qplus 0 l.

(* ------------------------------------------------------------------ *)
(** ** Strings *)

(** A string is its UTF-16 code units. *)
Definition jsstring : Type := list N.

(** The code units of an ASCII literal. *)
Definition lit (s : string) : jsstring :=
  map N_of_ascii (list_ascii_of_string s).

Definition is_high_surrogate (u : N) : bool :=
  ((55296 <=? u) && (u <=? 56319))%N.

Definition is_low_surrogate (u : N) : bool :=
  ((56320 <=? u) && (u <=? 57343))%N.

(** [text.split('')]: one string per code unit. *)
Definition split_units (text : jsstring) : list jsstring :=
  map (fun u => [u]) text.

(** The items of [for (const character of text)]: one string per code
    point, a high surrogate followed by a low one being a single item. *)
Fixpoint code_points (text : jsstring) : list jsstring :=
  match text with
  | [] => []
  | u :: rest =>
      match rest with
      | v :: rest' =>
          if is_high_surrogate u && is_low_surrogate v
          then [u; v] :: code_points rest'
          else [u] :: code_points rest
      | [] => [[u]]
      end
  end.

(** [text[i]]: the one-unit string at index [i], or [undefined]. *)
Definition char_at (text : jsstring) (i : Z) : option jsstring :=
  if (i <? 0)%Z then None
  else option_map (fun u => [u]) (nth_error text (Z.to_nat i)).

(** A value used as a property key: [undefined] reads the property
    named "undefined". *)
Definition ToPropertyKey (v : option jsstring) : jsstring :=
  match v with
  | Some s => s
  | None => lit "undefined"
  end.

(** [array.slice(start, end)] with its treatment of negative and
    out-of-range indices. *)
Definition relative_index (len k : Z) : Z :=
  if (k <? 0)%Z then Z.max (len + k) 0 else Z.min k len.

Definition Array_slice {A : Type} (l : list A) (start end_ : Z) : list A :=
  let len := Z.of_nat (List.length l) in
  let s := relative_index len start in
  let e := relative_index len end_ in
  firstn (Z.to_nat (e - s)) (skipn (Z.to_nat s) l).

(* ------------------------------------------------------------------ *)
(** ** Optional values *)

(** [a ?? b] *)
Definition nullish {A : Type} (a : option A) (b : A) : A :=
  match a with
  | Some v => v
  | None => b
  end.

(** [a?.f] for an optional field [f] *)
Definition chain {A B : Type} (a : option A) (f : A -> option B) : option B :=
  match a with
  | Some v => f v
  | None => None
  end.

(** [a?.f] for a field [f] that every [A] has *)
Definition chain1 {A B : Type} (a : option A) (f : A -> B) : option B :=
  option_map f a.

Declare Scope js_scope.
Delimit Scope js_scope with js.
Notation "a ?? b" := (nullish a b)
  (at level 45, right associativity) : js_scope.
Notation "a ?. f" := (chain a f)
  (at level 40, left associativity) : js_scope.
Notation "a ?.. f" := (chain1 a f)
  (at level 40, left associativity) : js_scope.
Open Scope js_scope.

(* ------------------------------------------------------------------ *)
(** ** Vectors

    The [vec2] of [@basementuniverse/vec]: a pair of coordinates, the
    zero vector [vec2()], and the componentwise sum [vec2.add]. *)

Record vec2 (A : Type) : Type := Vec2 { vec_x : A; vec_y : A }.
Arguments Vec2 {A} _ _.
Arguments vec_x {A} _.
Arguments vec_y {A} _.

Definition vec2_zero : vec2 Q := Vec2 0 0.

Definition vec2_add (a b : vec2 Q) : vec2 Q :=
  Vec2 (vec_x a + vec_x b) (vec_y a + vec_y b).

(* ------------------------------------------------------------------ *)
(** ** Types of the font *)

Record ImageFontCharacterConfig : Type := {
  char_offset : option (vec2 Q);
  char_width : option Q;
  char_height : option Q;
}.

Record ImageFontConfig : Type := {
  cfg_offset : option (vec2 Q);
  cfg_scale : option Q;
  defaultCharacterConfig : option ImageFontCharacterConfig;
  characters : gmap jsstring ImageFontCharacterConfig;
}.

Inductive ColoringMode : Type := multiply | overlay | hue | custom.

Module Align.
Inductive t : Type := left | center | right.
End Align.

Module BaseLine.
Inductive t : Type := top | middle | bottom.
End BaseLine.

(** A caller-supplied colouring routine, known by its identity only. *)
Inductive ColoringFunction : Type := UserFunction (id : N).

Record ImageFontRenderingOptions : Type := {
  opt_scale : option Q;
  monospace : option bool;
  kerning : option Q;
  align : option Align.t;
  baseLine : option BaseLine.t;
  color : option jsstring;
  coloringMode : option ColoringMode;
  coloringFunction : option ColoringFunction;
}.

(** The literal [{ scale: s }]. *)
Definition only_scale (s : option Q) : ImageFontRenderingOptions :=
  {| opt_scale := s; monospace := None; kerning := None;
     align := None; baseLine := None; color := None;
     coloringMode := None; coloringFunction := None |}.

(** What a canvas shows: a tile of the atlas, or a tile recoloured. *)
Inductive Pixels : Type :=
  | AtlasTile (id : N)
  | Recolored (source : Pixels) (color : jsstring) (mode : ColoringMode)
              (fn : option ColoringFunction).

(** A glyph tile: an [HTMLCanvasElement] with its intrinsic size. *)
Record HTMLCanvasElement : Type := {
  tex_width : Q;
  tex_height : Q;
  tex_pixels : Pixels;
}.

(* ------------------------------------------------------------------ *)
(** ** The insertion-ordered [Map]

    Entries are kept oldest first; keys are unique in every map built
    from the empty one with [Map_set] and [Map_delete]. *)

Definition JSMap (V : Type) : Type := list (jsstring * V).

Definition Map_empty {V : Type} : JSMap V := [].

Fixpoint Map_get {V : Type} (m : JSMap V) (k : jsstring) : option V :=
  match m with
  | [] => None
  | (k', v) :: rest => if decide (k' = k) then Some v else Map_get rest k
  end.

Definition Map_has {V : Type} (m : JSMap V) (k : jsstring) : bool :=
  match Map_get m k with
  | Some _ => true
  | None => false
  end.

Definition Map_size {V : Type} (m : JSMap V) : nat := List.length m.

(** [m.keys().next().value] *)
Definition Map_first_key {V : Type} (m : JSMap V) : option jsstring :=
  match m with
  | [] => None
  | (k, _) :: _ => Some k
  end.

Fixpoint Map_delete {V : Type} (m : JSMap V) (k : jsstring) : JSMap V :=
  match m with
  | [] => []
  | (k', v) :: rest =>
      if decide (k' = k) then rest else (k', v) :: Map_delete rest k
  end.

(** [m.set(k, v)]: an existing key keeps its place, a new one goes last. *)
Fixpoint Map_set {V : Type} (m : JSMap V) (k : jsstring) (v : V) : JSMap V :=
  match m with
  | [] => [(k, v)]
  | (k', v') :: rest =>
      if decide (k' = k) then (k, v) :: rest else (k', v') :: Map_set rest k v
  end.

Definition Map_keys {V : Type} (m : JSMap V) : list jsstring := map fst m.

(* ------------------------------------------------------------------ *)
(** ** The instance and the world around it *)

Record ImageFont : Type := {
  textures : gmap jsstring HTMLCanvasElement;
  config : ImageFontConfig;
  colorCache : JSMap HTMLCanvasElement;
}.

(** A call that leaves the instance: [context.drawImage(image, dx, dy,
    dw, dh)] on the canvas handed to [drawText], or one run of the
    recolouring routine. *)
Inductive Call : Type :=
  | DrawImage (image : HTMLCanvasElement) (dx dy : number) (dw dh : Q)
  | CreateColoredTexture (texture : HTMLCanvasElement) (color : jsstring)
                         (mode : ColoringMode)
                         (fn : option ColoringFunction).

Record World : Type := {
  this : ImageFont;
  calls : list Call;
}.

(** *** The method monad *)

Definition M (A : Type) : Type := World -> A * World.

Definition ret {A : Type} (a : A) : M A := fun w => (a, w).

Definition bind {A B : Type} (m : M A) (k : A -> M B) : M B :=
  fun w => let (a, w') := m w in k a w'.

Notation "x <- m ;; k" := (bind m (fun x => k))
  (at level 100, m at next level, right associativity) : js_scope.
Notation "m ;;; k" := (bind m (fun _ => k))
  (at level 100, right associativity) : js_scope.

Definition eval {A : Type} (m : M A) (w : World) : A := fst (m w).
Definition exec {A : Type} (m : M A) (w : World) : World := snd (m w).

(** Reads of the private fields. *)
Definition this_config : M ImageFontConfig := fun w => (config (this w), w).
Definition this_textures : M (gmap jsstring HTMLCanvasElement) :=
  fun w => (textures (this w), w).
Definition this_colorCache : M (JSMap HTMLCanvasElement) :=
  fun w => (colorCache (this w), w).

(** Update of the colour cache, the only field a method assigns to. *)
Definition update_colorCache
    (f : JSMap HTMLCanvasElement -> JSMap HTMLCanvasElement) : M unit :=
  fun w =>
    (tt, {| this := {| textures := textures (this w);
                       config := config (this w);
                       colorCache := f (colorCache (this w)) |};
            calls := calls w |}).

(** A call on the outside world is appended to the log. *)
Definition emit (c : Call) : M unit :=
  fun w => (tt, {| this := this w; calls := calls w ++ [c] |}).

(** [array.reduce(f, init)] and [array.map(f)] with a callback that is a
    method call, and the [for ... of] loop with one mutable local. *)
Fixpoint reduceM {A B : Type} (f : B -> A -> M B) (l : list A) (init : B)
  : M B :=
  match l with
  | [] => ret init
  | a :: rest => acc <- f init a ;; reduceM f rest acc
  end.

Fixpoint mapM {A B : Type} (f : A -> M B) (l : list A) : M (list B) :=
  match l with
  | [] => ret []
  | a :: rest => b <- f a ;; bs <- mapM f rest ;; ret (b :: bs)
  end.

(* ------------------------------------------------------------------ *)
(** ** The class [ImageFont] *)

(** Truthiness of an optional boolean and of an optional string. *)
Definition truthy_bool (b : option bool) : bool :=
  match b with
  | Some true => true
  | _ => false
  end.

Definition truthy_string (s : option jsstring) : bool :=
  match s with
  | Some (_ :: _) => true
  | _ => false
  end.

(** A property of the second object of a spread overrides the first. *)
Definition spread {A : Type} (a b : option A) : option A :=
  match b with
  | Some _ => b
  | None => a
  end.

Definition MAX_COLOR_CACHE_SIZE : nat := 1000.

Definition DEFAULT_CONFIG : ImageFontConfig :=
  {| cfg_offset := Some vec2_zero;
     cfg_scale := Some 1;
     defaultCharacterConfig :=
       Some {| char_offset := Some vec2_zero;
               char_width := None;
               char_height := None |};
     characters := ∅ |}.

(** [new ImageFont(textures, config)] *)
Definition constructor (textures : gmap jsstring HTMLCanvasElement)
    (config : ImageFontConfig) : ImageFont :=
  {| textures := textures;
     config :=
       {| cfg_offset := spread (cfg_offset DEFAULT_CONFIG) (cfg_offset config);
          cfg_scale := spread (cfg_scale DEFAULT_CONFIG) (cfg_scale config);
          defaultCharacterConfig :=
            Some
              {| char_offset :=
                   spread (defaultCharacterConfig DEFAULT_CONFIG ?. char_offset)
                          (defaultCharacterConfig config ?. char_offset);
                 char_width :=
                   spread (defaultCharacterConfig DEFAULT_CONFIG ?. char_width)
                          (defaultCharacterConfig config ?. char_width);
                 char_height :=
                   spread (defaultCharacterConfig DEFAULT_CONFIG ?. char_height)
                          (defaultCharacterConfig config ?. char_height) |};
          characters := characters config ∪ characters DEFAULT_CONFIG |};
     colorCache := Map_empty |}.

Definition ColoringMode_string (mode : ColoringMode) : jsstring :=
  match mode with
  | multiply => lit "multiply"
  | overlay => lit "overlay"
  | hue => lit "hue"
  | custom => lit "custom"
  end.

(** [`${character}:${color}:${mode}`] *)
Definition getCacheKey (character color : jsstring) (mode : ColoringMode)
  : jsstring :=
  character ++ lit ":" ++ color ++ lit ":" ++ ColoringMode_string mode.

Definition getColoringMode (options : ImageFontRenderingOptions)
  : ColoringMode :=
  let mode := coloringMode options ?? multiply in
  match mode, coloringFunction options with
  | custom, None => multiply
  | _, _ => mode
  end.

(** The recoloured copy of a tile: a fresh canvas of the same size.  The
    compositing is not modelled; the run of the routine is logged. *)
Definition createColoredTexture (texture : HTMLCanvasElement)
    (color : jsstring) (mode : ColoringMode)
    (coloringFunction : option ColoringFunction) : M HTMLCanvasElement :=
  emit (CreateColoredTexture texture color mode coloringFunction) ;;;
  ret {| tex_width := tex_width texture;
         tex_height := tex_height texture;
         tex_pixels :=
           Recolored (tex_pixels texture) color mode coloringFunction |}.

(** The width of one character.  [character] is the property key the
    two tables are read at. *)
Definition measureCharacterWidth (character : jsstring)
    (options : option ImageFontRenderingOptions) : M Q :=
  config <- this_config ;;
  let characterConfig := characters config !! character in
  let actualScale := (options ?. opt_scale ?? 1) * (cfg_scale config ?? 1) in
  textures <- this_textures ;;
  let texture := textures !! character in
  let width :=
    if truthy_bool (options ?. monospace) then
      match options ?. kerning with
      | Some k => k
      | None =>
          defaultCharacterConfig config ?. char_width
            ?? texture ?.. tex_width ?? 0
      end
    else
      (characterConfig ?. char_width
         ?? defaultCharacterConfig config ?. char_width
         ?? texture ?.. tex_width ?? 0)
      * (options ?. kerning ?? 1) in
  ret (width * actualScale).

Definition measureCharacterHeight (character : jsstring)
    (options : option ImageFontRenderingOptions) : M Q :=
  config <- this_config ;;
  let characterConfig := characters config !! character in
  let actualScale := (options ?. opt_scale ?? 1) * (cfg_scale config ?? 1) in
  ret ((characterConfig ?. char_height
          ?? defaultCharacterConfig config ?. char_height ?? 0)
       * actualScale).

(** The measured box.  The last character is [text[text.length - 1]],
    which is [undefined] for the empty text; the tables are then read at
    the key "undefined". *)
Definition measureText (text : jsstring)
    (options : option ImageFontRenderingOptions) : M (vec2 number) :=
  let length := Z.of_nat (List.length text) in
  lastCharacterWidth <-
    measureCharacterWidth (ToPropertyKey (char_at text (length - 1)))
      (Some (only_scale (options ?. opt_scale))) ;;
  total <-
    reduceM
      (fun width character =>
         w <- measureCharacterWidth character options ;; ret (width + w))
      (Array_slice (split_units text) 0 (length - 1)) 0 ;;
  let width := total + lastCharacterWidth in
  heights <-
    mapM (fun character => measureCharacterHeight character options)
      (split_units text) ;;
  let height := Math_max (map Fin heights) in
  ret (Vec2 (Fin width) height).

(** The body of [if (options?.color)] in [drawText]: the tile to draw
    for [character] when the truthy [color] is asked for.  The cache
    holds canvases only, so [has(cacheKey)] is true exactly when
    [get(cacheKey)] is one. *)
Definition coloredTexture (character : jsstring)
    (texture : HTMLCanvasElement) (options : ImageFontRenderingOptions)
    (color : jsstring) : M HTMLCanvasElement :=
  let coloringMode := getColoringMode options in
  let cacheKey := getCacheKey character color coloringMode in
  cache <- this_colorCache ;;
  match Map_get cache cacheKey with
  | Some cached => ret cached
  | None =>
      finalTexture <-
        createColoredTexture texture color coloringMode
          (coloringFunction options) ;;
      cache <- this_colorCache ;;
      (if (MAX_COLOR_CACHE_SIZE <=? Map_size cache)%nat then
         match Map_first_key cache with
         | Some firstKey =>
             update_colorCache (fun m => Map_delete m firstKey)
         | None => ret tt
         end
       else ret tt) ;;;
      update_colorCache (fun m => Map_set m cacheKey finalTexture) ;;;
      ret finalTexture
  end.

(** One turn of the [for ... of] loop of [drawText]; the result is the
    value of [currentX] after the turn. *)
Definition drawCharacter (options : option ImageFontRenderingOptions)
    (actualScale : Q) (actualY : number) (currentX : number)
    (character : jsstring) : M number :=
  characterWidth <- measureCharacterWidth character options ;;
  textures <- this_textures ;;
  match textures !! character with
  | None => ret (num_add currentX (Fin characterWidth))
  | Some texture =>
      config <- this_config ;;
      let characterConfig := characters config !! character in
      let offset :=
        vec2_add (cfg_offset config ?? vec2_zero)
          (characterConfig ?. char_offset
             ?? defaultCharacterConfig config ?. char_offset
             ?? vec2_zero) in
      finalTexture <-
        match options with
        | Some opts =>
            match color opts with
            | Some (u :: s) => coloredTexture character texture opts (u :: s)
            | _ => ret texture
            end
        | None => ret texture
        end ;;
      emit (DrawImage finalTexture
              (num_sub currentX (Fin (vec_x offset * actualScale)))
              (num_sub actualY (Fin (vec_y offset * actualScale)))
              (tex_width finalTexture * actualScale)
              (tex_height finalTexture * actualScale)) ;;;
      ret (num_add currentX (Fin characterWidth))
  end.

(** The whole loop, from the origin it is started at. *)
Definition drawCharacters (options : option ImageFontRenderingOptions)
    (actualScale : Q) (actualY : number) (items : list jsstring)
    (currentX : number) : M number :=
  reduceM (drawCharacter options actualScale actualY) items currentX.

Definition drawText (text : jsstring) (x y : Q)
    (options : option ImageFontRenderingOptions) : M unit :=
  size <- measureText text options ;;
  let currentX :=
    match options ?. align with
    | Some Align.center => num_sub (Fin x) (num_div (vec_x size) (Fin 2))
    | Some Align.right => num_sub (Fin x) (vec_x size)
    | _ => Fin x
    end in
  config <- this_config ;;
  let actualScale := (options ?. opt_scale ?? 1) * (cfg_scale config ?? 1) in
  let actualY :=
    match options ?. baseLine with
    | Some BaseLine.middle => num_sub (Fin y) (num_div (vec_y size) (Fin 2))
    | Some BaseLine.bottom => num_sub (Fin y) (vec_y size)
    | _ => Fin y
    end in
  drawCharacters options actualScale actualY (code_points text) currentX ;;;
  ret tt.

(** [drawText] as src/index.ts has it, without the colour options. *)
Module IndexTs.

Definition drawCharacter (options : option ImageFontRenderingOptions)
    (actualScale : Q) (actualY : number) (currentX : number)
    (character : jsstring) : M number :=
  characterWidth <- measureCharacterWidth character options ;;
  textures <- this_textures ;;
  match textures !! character with
  | None => ret (num_add currentX (Fin characterWidth))
  | Some texture =>
      config <- this_config ;;
      let characterConfig := characters config !! character in
      let offset :=
        vec2_add (cfg_offset config ?? vec2_zero)
          (characterConfig ?. char_offset
             ?? defaultCharacterConfig config ?. char_offset
             ?? vec2_zero) in
      emit (DrawImage texture
              (num_sub currentX (Fin (vec_x offset * actualScale)))
              (num_sub actualY (Fin (vec_y offset * actualScale)))
              (tex_width texture * actualScale)
              (tex_height texture * actualScale)) ;;;
      ret (num_add currentX (Fin characterWidth))
  end.

Definition drawText (text : jsstring) (x y : Q)
    (options : option ImageFontRenderingOptions) : M unit :=
  size <- measureText text options ;;
  let currentX :=
    match options ?. align with
    | Some Align.center => num_sub (Fin x) (num_div (vec_x size) (Fin 2))
    | Some Align.right => num_sub (Fin x) (vec_x size)
    | _ => Fin x
    end in
  config <- this_config ;;
  let actualScale := (options ?. opt_scale ?? 1) * (cfg_scale config ?? 1) in
  let actualY :=
    match options ?. baseLine with
    | Some BaseLine.middle => num_sub (Fin y) (num_div (vec_y size) (Fin 2))
    | Some BaseLine.bottom => num_sub (Fin y) (vec_y size)
    | _ => Fin y
    end in
  reduceM (drawCharacter options actualScale actualY) (code_points text)
    currentX ;;;
  ret tt.

End IndexTs.

(** The instance as the constructor leaves it, nothing drawn yet. *)
Definition fresh (textures : gmap jsstring HTMLCanvasElement)
    (config : ImageFontConfig) : World :=
  {| this := constructor textures config; calls := [] |}.

(** One step of the life of an instance: a run of one of its methods
    (or of one turn of the drawing loop) to completion. *)
Inductive step : World -> World -> Prop :=
  | step_measureCharacterWidth w character options :
      step w (exec (measureCharacterWidth character options) w)
  | step_measureCharacterHeight w character options :
      step w (exec (measureCharacterHeight character options) w)
  | step_measureText w text options :
      step w (exec (measureText text options) w)
  | step_createColoredTexture w texture color mode fn :
      step w (exec (createColoredTexture texture color mode fn) w)
  | step_coloredTexture w character texture options color :
      step w (exec (coloredTexture character texture options color) w)
  | step_drawCharacter w options actualScale actualY currentX character :
      step w (exec (drawCharacter options actualScale actualY currentX
                      character) w)
  | step_drawText w text x y options :
      step w (exec (drawText text x y options) w).

(** The worlds an instance built by the constructor can be in. *)
Definition reachable (w : World) : Prop :=
  exists textures config, rtc step (fresh textures config) w.

(** The same world with another per-character table. *)
Definition with_characters (w : World)
    (table : gmap jsstring ImageFontCharacterConfig) : World :=
  {| this :=
       {| textures := textures (this w);
          config :=
            {| cfg_offset := cfg_offset (config (this w));
               cfg_scale := cfg_scale (config (this w));
               defaultCharacterConfig :=
                 defaultCharacterConfig (config (this w));
               characters := table |};
          colorCache := colorCache (this w) |};
     calls := calls w |}.

(** The invariant of the colour cache. *)
Definition cache_inv (m : JSMap HTMLCanvasElement) : Prop :=
  NoDup (Map_keys m) /\ (Map_size m <= MAX_COLOR_CACHE_SIZE)%nat.

(* ------------------------------------------------------------------ *)
(** ** A sample font

    The font of the package's documentation: tiles of 64 by 64 pixels
    for A, B and C, a default character of 32 by 48 pixels drawn 14
    pixels right of and 8 pixels below the tile's corner, and widths of
    37, 37 and 33 pixels for A, B and C. *)

Definition sample_tile (id : N) : HTMLCanvasElement :=
  {| tex_width := 64; tex_height := 64; tex_pixels := AtlasTile id |}.

Definition sample_character (width : Q) : ImageFontCharacterConfig :=
  {| char_offset := None; char_width := Some width; char_height := None |}.

Definition sample_textures : gmap jsstring HTMLCanvasElement :=
  <[lit "A" := sample_tile 0]>
    (<[lit "B" := sample_tile 1]> (<[lit "C" := sample_tile 2]> ∅)).

Definition sample_config : ImageFontConfig :=
  {| cfg_offset := None;
     cfg_scale := None;
     defaultCharacterConfig :=
       Some {| char_offset := Some (Vec2 14 8);
               char_width := Some 32;
               char_height := Some 48 |};
     characters :=
       <[lit "A" := sample_character 37]>
         (<[lit "B" := sample_character 37]>
            (<[lit "C" := sample_character 33]> ∅)) |}.

Definition sample_world : World := fresh sample_textures sample_config.

(** The sample font with an atlas that has no tile at all. *)
Definition bare_world : World := fresh ∅ sample_config.

(** A font whose three glyphs are all 10 pixels wide. *)
Definition ten_config : ImageFontConfig :=
  {| cfg_offset := None;
     cfg_scale := None;
     defaultCharacterConfig := None;
     characters :=
       <[lit "A" := sample_character 10]>
         (<[lit "B" := sample_character 10]>
            (<[lit "C" := sample_character 10]> ∅)) |}.

Definition ten_world : World := fresh sample_textures ten_config.

Definition with_kerning (k : Q) : ImageFontRenderingOptions :=
  {| opt_scale := None; monospace := None; kerning := Some k;
     align := None; baseLine := None; color := None;
     coloringMode := None; coloringFunction := None |}.

Definition with_monospace (k : option Q) : ImageFontRenderingOptions :=
  {| opt_scale := None; monospace := Some true; kerning := k;
     align := None; baseLine := None; color := None;
     coloringMode := None; coloringFunction := None |}.

Definition with_color (c : jsstring) : ImageFontRenderingOptions :=
  {| opt_scale := None; monospace := None; kerning := None;
     align := None; baseLine := None; color := Some c;
     coloringMode := None; coloringFunction := None |}.

Definition with_anchor (a : Align.t) (b : BaseLine.t)
  : ImageFontRenderingOptions :=
  {| opt_scale := None; monospace := None; kerning := None;
     align := Some a; baseLine := Some b; color := None;
     coloringMode := None; coloringFunction := None |}.

(** A font with a tile for each of the first [n] code units, the text
    that holds each of them once, and the number of runs of the
    recolouring routine in a log. *)
Definition wide_text (n : nat) : jsstring := map N.of_nat (seq 0 n).

Definition wide_textures (n : nat) : gmap jsstring HTMLCanvasElement :=
  list_to_map (map (fun u => ([u], sample_tile u)) (wide_text n)).

Definition wide_world (n : nat) : World :=
  fresh (wide_textures n) sample_config.

Fixpoint recolorings (log : list Call) : nat :=
  match log with
  | [] => 0
  | CreateColoredTexture _ _ _ _ :: rest => S (recolorings rest)
  | DrawImage _ _ _ _ _ :: rest => recolorings rest
  end.

(** A computation is read-only when it hands the world back as it got
    it. *)
Definition read_only {A : Type} (m : M A) : Prop :=
  forall w, m w = (eval m w, w).

(** A computation maintains a property of the world when the property
    holds after a run that started where it held. *)
Definition maintains {A : Type} (P : World -> Prop) (m : M A) : Prop :=
  forall w, P w -> P (exec m w).

(** The fields no method assigns to. *)
Definition fixed_part (w : World)
  : gmap jsstring HTMLCanvasElement * ImageFontConfig :=
  (textures (this w), config (this w)).

(** The cache after a miss: the oldest entry gives way when the cache
    is full, and the new entry goes last. *)
Definition after_miss (cache : JSMap HTMLCanvasElement) (key : jsstring)
    (made : HTMLCanvasElement) : JSMap HTMLCanvasElement :=
  Map_set
    (if (MAX_COLOR_CACHE_SIZE <=? Map_size cache)%nat then
       match Map_first_key cache with
       | Some firstKey => Map_delete cache firstKey
       | None => cache
       end
     else cache)
    key made.

(* ------------------------------------------------------------------ *)
(** ** The layout of a text

    Where the loop of [drawText] puts each glyph, written down without
    the loop. *)

(** The offset of a character: the font's offset plus the character's
    own, else the default character's, else none. *)
Definition resolveOffset (w : World) (character : jsstring) : vec2 Q :=
  vec2_add (cfg_offset (config (this w)) ?? vec2_zero)
    (characters (config (this w)) !! character ?. char_offset
       ?? defaultCharacterConfig (config (this w)) ?. char_offset
       ?? vec2_zero).

(** The cursor after the characters [items], started at [from]: the
    widths are added one after the other. *)
Definition advance (w : World) (options : option ImageFontRenderingOptions)
    (items : list jsstring) (from : Q) : Q :=
  fold_left
    (fun cursor character =>
       cursor + eval (measureCharacterWidth character options) w)
    items from.

(** The rectangle [image] is drawn into when it stands for [character]
    with the cursor at [cursor]. *)
Definition glyph (w : World) (actualScale : Q) (actualY : number)
    (cursor : Q) (character : jsstring) (tile image : HTMLCanvasElement)
  : Call :=
  DrawImage image
    (num_sub (Fin cursor)
       (Fin (vec_x (resolveOffset w character) * actualScale)))
    (num_sub actualY
       (Fin (vec_y (resolveOffset w character) * actualScale)))
    (tex_width tile * actualScale)
    (tex_height tile * actualScale).

(** The draw calls of a text drawn without colour: one for each
    character that has a tile, at the origin moved on by the widths of
    the characters before it. *)
Definition placement (w : World) (actualScale : Q) (actualY : number)
    (cursor : Q) (character : jsstring) : list Call :=
  match textures (this w) !! character with
  | Some tile => [glyph w actualScale actualY cursor character tile tile]
  | None => []
  end.

Definition placements (w : World)
    (options : option ImageFontRenderingOptions) (actualScale : Q)
    (actualY : number) (originX : Q) (items : list jsstring) : list Call :=
  concat
    (imap
       (fun i character =>
          placement w actualScale actualY
            (advance w options (take i items) originX) character)
       items).

(** The rectangle of a draw call; a run of the recolouring routine has
    none. *)
Definition geometry (c : Call) : option (number * number * Q * Q) :=
  match c with
  | DrawImage _ dx dy dw dh => Some (dx, dy, dw, dh)
  | CreateColoredTexture _ _ _ _ => None
  end.

(** The horizontal and vertical origin of a text whose measured box is
    [width] by [height]. *)
Definition originX (options : option ImageFontRenderingOptions)
    (x width : Q) : Q :=
  match options ?. align with
  | Some Align.center => x + - (width / 2)
  | Some Align.right => x + - width
  | _ => x
  end.

Definition originY (options : option ImageFontRenderingOptions)
    (y : Q) (height : number) : number :=
  match options ?. baseLine with
  | Some BaseLine.middle => num_sub (Fin y) (num_div height (Fin 2))
  | Some BaseLine.bottom => num_sub (Fin y) height
  | _ => Fin y
  end.

(** An item of a [for ... of] loop over a string: one code unit, or a
    high surrogate and the low surrogate after it. *)
Definition is_code_point (character : jsstring) : Prop :=
  (exists u, character = [u])
  \/ (exists u v,
        character = [u; v]
        /\ is_high_surrogate u = true /\ is_low_surrogate v = true).

(** The public methods, and the worlds an instance is in between two
    calls of them. *)
Inductive public_step : World -> World -> Prop :=
  | public_measureText w text options :
      public_step w (exec (measureText text options) w)
  | public_drawText w text x y options :
      public_step w (exec (drawText text x y options) w).

Definition in_use (w : World) : Prop :=
  exists textures config, rtc public_step (fresh textures config) w.

(** Every cached canvas has the size of the tile of the character it
    was made for. *)
Definition cache_sized (w : World) : Prop :=
  forall key cached,
    In (key, cached) (colorCache (this w)) ->
    forall character color mode tile,
      is_code_point character ->
      key = getCacheKey character color mode ->
      textures (this w) !! character = Some tile ->
      tex_width cached = tex_width tile
      /\ tex_height cached = tex_height tile.

(** The options with the scale replaced. *)
Definition set_scale (options : option ImageFontRenderingOptions) (s : Q)
  : option ImageFontRenderingOptions :=
  Some
    {| opt_scale := Some s;
       monospace := options ?. monospace;
       kerning := options ?. kerning;
       align := options ?. align;
       baseLine := options ?. baseLine;
       color := options ?. color;
       coloringMode := options ?. coloringMode;
       coloringFunction := options ?. coloringFunction |}.

(* ------------------------------------------------------------------ *)
(** ** Values, and the type guards

    What a content manager hands over: the values of JSON, with
    [undefined].  An object is the finite map of its own properties; an
    array has its items under the decimal names of their indices. *)

#[local] Set Warnings "-register-all".

Inductive JSValue : Type :=
  | VUndefined
  | VNull
  | VBoolean (b : bool)
  | VNumber (q : Q)
  | VString (s : jsstring)
  | VArray (items : list JSValue)
  | VObject (props : gmap jsstring JSValue).

(** [typeof value === 'object' && value !== null] *)
Definition is_object (value : JSValue) : bool :=
  match value with
  | VArray _ | VObject _ => true
  | _ => false
  end.

(** [value[name]] when [name in value], for a name that is no index and
    no member of arrays (the guards read no other). *)
Definition property (value : JSValue) (name : jsstring) : option JSValue :=
  match value with
  | VObject props => props !! name
  | _ => None
  end.

(** [name in value && typeof value[name] === 'number'], on the result
    of the read. *)
Definition is_number (p : option JSValue) : bool :=
  match p with
  | Some (VNumber _) => true
  | _ => false
  end.

(** The three tests the guards make of a vector: an object, with a
    number [x] and a number [y]. *)
Definition is_vec2 (value : JSValue) : bool :=
  is_object value
  && is_number (property value (lit "x"))
  && is_number (property value (lit "y")).

Definition required_vec2 (value : JSValue) (name : jsstring) : bool :=
  match property value name with
  | Some p => is_vec2 p
  | None => false
  end.

Definition optional_vec2 (value : JSValue) (name : jsstring) : bool :=
  match property value name with
  | Some p => is_vec2 p
  | None => true
  end.

(** [!(name in value && typeof value[name] !== 'number')] *)
Definition optional_number (value : JSValue) (name : jsstring) : bool :=
  match property value name with
  | Some (VNumber _) => true
  | Some _ => false
  | None => true
  end.

Definition isImageFontCharacterConfigData (value : JSValue)
    (includeTextureAtlasPosition : bool) : bool :=
  is_object value
  && (if includeTextureAtlasPosition
      then required_vec2 value (lit "textureAtlasPosition")
      else true)
  && optional_vec2 value (lit "offset")
  && optional_number value (lit "width")
  && optional_number value (lit "height").

(** The decimal name of an array index. *)
Fixpoint digits (d : Decimal.uint) : jsstring :=
  match d with
  | Decimal.Nil => []
  | Decimal.D0 d => 48%N :: digits d
  | Decimal.D1 d => 49%N :: digits d
  | Decimal.D2 d => 50%N :: digits d
  | Decimal.D3 d => 51%N :: digits d
  | Decimal.D4 d => 52%N :: digits d
  | Decimal.D5 d => 53%N :: digits d
  | Decimal.D6 d => 54%N :: digits d
  | Decimal.D7 d => 55%N :: digits d
  | Decimal.D8 d => 56%N :: digits d
  | Decimal.D9 d => 57%N :: digits d
  end.

Definition index_key (i : nat) : jsstring := digits (Nat.to_uint i).

(** [Object.entries(value)] of an object or an array; the order of the
    entries of an object is not modelled. *)
Definition Object_entries (value : JSValue) : list (jsstring * JSValue) :=
  match value with
  | VObject props => map_to_list props
  | VArray items => imap (fun i item => (index_key i, item)) items
  | _ => []
  end.

Definition isImageFontConfigData (value : JSValue) : bool :=
  is_object value
  && required_vec2 value (lit "textureAtlasSize")
  && optional_vec2 value (lit "offset")
  && optional_number value (lit "scale")
  && match property value (lit "defaultCharacterConfig") with
     | Some d => is_object d && isImageFontCharacterConfigData d false
     | None => true
     end
  && match property value (lit "characters") with
     | Some cs =>
         is_object cs
         && forallb
              (fun entry =>
                 (List.length (fst entry) =? 1)%nat
                 && isImageFontCharacterConfigData (snd entry) true)
              (Object_entries cs)
     | None => false
     end.

(** *** The object as the class reads it *)

Definition number_of (p : option JSValue) : option Q :=
  match p with
  | Some (VNumber q) => Some q
  | _ => None
  end.

Definition vec2_of (p : option JSValue) : option (vec2 Q) :=
  match p with
  | Some v =>
      match number_of (property v (lit "x")),
            number_of (property v (lit "y")) with
      | Some x, Some y => Some (Vec2 x y)
      | _, _ => None
      end
  | None => None
  end.

(** A value the guards accept, read as the configuration it is. *)
Definition view_character (value : JSValue) : ImageFontCharacterConfig :=
  {| char_offset := vec2_of (property value (lit "offset"));
     char_width := number_of (property value (lit "width"));
     char_height := number_of (property value (lit "height")) |}.

Definition own_properties (value : option JSValue) : gmap jsstring JSValue :=
  match value with
  | Some v => list_to_map (Object_entries v)
  | None => ∅
  end.

Definition view_config (value : JSValue) : ImageFontConfig :=
  {| cfg_offset := vec2_of (property value (lit "offset"));
     cfg_scale := number_of (property value (lit "scale"));
     defaultCharacterConfig :=
       view_character <$> property value (lit "defaultCharacterConfig");
     characters :=
       view_character <$> own_properties (property value (lit "characters")) |}.

(** *** Configuration data, typed, and its serialisation *)

Record ImageFontCharacterConfigData : Type := {
  char_config : ImageFontCharacterConfig;
  textureAtlasPosition : vec2 Q;
}.

Record ImageFontConfigData : Type := {
  data_offset : option (vec2 Q);
  data_scale : option Q;
  data_defaultCharacterConfig : option ImageFontCharacterConfig;
  textureAtlasSize : vec2 Q;
  data_characters : gmap jsstring ImageFontCharacterConfigData;
}.

(** The configuration in the data. *)
Definition config_of (data : ImageFontConfigData) : ImageFontConfig :=
  {| cfg_offset := data_offset data;
     cfg_scale := data_scale data;
     defaultCharacterConfig := data_defaultCharacterConfig data;
     characters := char_config <$> data_characters data |}.

(** A property that is there only when it has a value. *)
Definition put (name : jsstring) (value : option JSValue)
    (props : gmap jsstring JSValue) : gmap jsstring JSValue :=
  match value with
  | Some v => <[name := v]> props
  | None => props
  end.

Definition encode_vec2 (v : vec2 Q) : JSValue :=
  VObject
    (put (lit "x") (Some (VNumber (vec_x v)))
       (put (lit "y") (Some (VNumber (vec_y v))) ∅)).

Definition encode_character (c : ImageFontCharacterConfig)
  : gmap jsstring JSValue :=
  put (lit "offset") (encode_vec2 <$> char_offset c)
    (put (lit "width") (VNumber <$> char_width c)
       (put (lit "height") (VNumber <$> char_height c) ∅)).

Definition encode_character_data (d : ImageFontCharacterConfigData)
  : JSValue :=
  VObject
    (put (lit "textureAtlasPosition")
       (Some (encode_vec2 (textureAtlasPosition d)))
       (encode_character (char_config d))).

Definition encode (data : ImageFontConfigData) : JSValue :=
  VObject
    (put (lit "textureAtlasSize") (Some (encode_vec2 (textureAtlasSize data)))
       (put (lit "offset") (encode_vec2 <$> data_offset data)
          (put (lit "scale") (VNumber <$> data_scale data)
             (put (lit "defaultCharacterConfig")
                ((fun c => VObject (encode_character c))
                   <$> data_defaultCharacterConfig data)
                (put (lit "characters")
                   (Some
                      (VObject
                         (encode_character_data <$> data_characters data)))
                   ∅))))).

(* ------------------------------------------------------------------ *)
(** ** The content processor *)

(** What an item of the content manager holds: a value, an image, or a
    font.  The guard refuses an image and a font: neither has a
    property [textureAtlasSize]. *)
Inductive Content : Type :=
  | CValue (value : JSValue)
  | CImage (id : N)
  | CFont (font : ImageFont).

Record ContentItem : Type := {
  item_name : jsstring;
  item_type : jsstring;
  item_content : Content;
  item_status : jsstring;
}.

(** Truthiness of [content[imageName]?.content]. *)
Definition truthy_content (c : option Content) : bool :=
  match c with
  | None => false
  | Some (CValue VUndefined) | Some (CValue VNull) => false
  | Some (CValue (VBoolean b)) => b
  | Some (CValue (VNumber q)) => negb (Qeq_bool q 0)
  | Some (CValue (VString s)) =>
      match s with [] => false | _ :: _ => true end
  | Some _ => true
  end.

(** [Object.fromEntries(entries)]: a later entry overrides an earlier
    one of the same name. *)
Definition Object_fromEntries {V : Type} (entries : list (jsstring * V))
  : gmap jsstring V :=
  fold_left (fun m entry => <[fst entry := snd entry]> m) entries ∅.

(** The regions of the atlas: the tile position of every character. *)
Definition regions (value : JSValue) : gmap jsstring (vec2 Q) :=
  match property value (lit "characters") with
  | Some cs =>
      Object_fromEntries
        (map
           (fun entry =>
              (fst entry,
               vec2_of (property (snd entry) (lit "textureAtlasPosition"))
                 ?? vec2_zero))
           (Object_entries cs))
  | None => ∅
  end.

(** The processor.  [textureAtlas image width height regions] stands
    for the call of the atlas package with [relative: true]; the result
    is the message of the error thrown, or the content afterwards. *)
Definition imageFontContentProcessor
    (textureAtlas :
       Content -> Q -> Q -> gmap jsstring (vec2 Q)
       -> gmap jsstring HTMLCanvasElement)
    (content : gmap jsstring ContentItem) (data : ContentItem)
    (imageName : jsstring) : jsstring + gmap jsstring ContentItem :=
  match item_content data with
  | CValue value =>
      if isImageFontConfigData value then
        let image := item_content <$> content !! imageName in
        match image with
        | Some image' =>
            if truthy_content image then
              let size :=
                vec2_of (property value (lit "textureAtlasSize"))
                  ?? vec2_zero in
              let atlas :=
                textureAtlas image' (vec_x size) (vec_y size)
                  (regions value) in
              let font := constructor atlas (view_config value) in
              inr (<[item_name data :=
                       {| item_name := item_name data;
                          item_type := lit "json";
                          item_content := CFont font;
                          item_status := lit "processed" |}]> content)
            else inl (lit "Image '" ++ imageName ++ lit "' not found")
        | None => inl (lit "Image '" ++ imageName ++ lit "' not found")
        end
      else inl (lit "Invalid image font config")
  | _ => inl (lit "Invalid image font config")
  end.

(** The configuration data of the package's documentation, the content
    it is loaded from, and an atlas package that cuts a tile of 64 by
    64 pixels for every region. *)
Definition sample_character_data (x : Q) (width : Q)
  : ImageFontCharacterConfigData :=
  {| char_config := sample_character width;
     textureAtlasPosition := Vec2 x 0 |}.

Definition sample_data : ImageFontConfigData :=
  {| data_offset := None;
     data_scale := None;
     data_defaultCharacterConfig :=
       Some {| char_offset := Some (Vec2 14 8);
               char_width := Some 32;
               char_height := Some 48 |};
     textureAtlasSize := Vec2 8 5;
     data_characters :=
       <[lit "A" := sample_character_data 0 37]>
         (<[lit "B" := sample_character_data 1 37]>
            (<[lit "C" := sample_character_data 2 33]> ∅)) |}.

Definition sample_textureAtlas (image : Content) (width height : Q)
    (regions : gmap jsstring (vec2 Q)) : gmap jsstring HTMLCanvasElement :=
  (fun _ => sample_tile 0) <$> regions.

Definition sample_content : gmap jsstring ContentItem :=
  <[lit "font-spritesheet" :=
      {| item_name := lit "font-spritesheet";
         item_type := lit "image";
         item_content := CImage 1;
         item_status := lit "loaded" |}]> ∅.

Definition sample_item (content : Content) : ContentItem :=
  {| item_name := lit "font";
     item_type := lit "json";
     item_content := content;
     item_status := lit "loaded" |}.

(** Two sets of options that ask for the custom mode in red, each with
    a colouring function of its own. *)
Definition with_custom (fn : N) : ImageFontRenderingOptions :=
  {| opt_scale := None; monospace := None; kerning := None;
     align := None; baseLine := None; color := Some (lit "red");
     coloringMode := Some custom;
     coloringFunction := Some (UserFunction fn) |}.

(** A run of the recolouring routine that the options can ask for: a
    colour that is not empty, and a colouring function whenever the
    mode is custom. *)
Definition recoloring_ok (c : Call) : Prop :=
  match c with
  | CreateColoredTexture _ color mode fn =>
      color <> [] /\ (mode = custom -> is_Some fn)
  | DrawImage _ _ _ _ _ => True
  end.

(* ------------------------------------------------------------------ *)
(** ** The rescaling script (src/example/rescale.js)

    The transformation the script applies between reading the file and
    writing it, on a configuration whose fields are numbers.  (The
    script refuses a factor that is not a positive number before it
    reads the file; the transformation is written for every factor.) *)

(** [Math.round]: the nearest integer, a half going up. *)
Definition Math_round (q : Q) : Q := inject_Z (Qfloor (q + (1 # 2))).

(** [if (field) { field = Math.round(field * scale) }]: a field that is
    zero is falsy and stays. *)
Definition rescaleNumber (field scale : Q) : Q :=
  if Qeq_bool field 0 then field else Math_round (field * scale).

Definition rescaleCharacter (character : ImageFontCharacterConfig)
    (scale : Q) : ImageFontCharacterConfig :=
  {| char_offset :=
       match char_offset character with
       | Some offset =>
           Some (Vec2 (rescaleNumber (vec_x offset) scale)
                      (rescaleNumber (vec_y offset) scale))
       | None => None
       end;
     char_width :=
       match char_width character with
       | Some width => Some (rescaleNumber width scale)
       | None => None
       end;
     char_height :=
       match char_height character with
       | Some height => Some (rescaleNumber height scale)
       | None => None
       end |}.

(** The default character and every character are rescaled; nothing
    else is touched. *)
Definition rescale (json : ImageFontConfigData) (scaleFactor : Q)
  : ImageFontConfigData :=
  {| data_offset := data_offset json;
     data_scale := data_scale json;
     data_defaultCharacterConfig :=
       match data_defaultCharacterConfig json with
       | Some character => Some (rescaleCharacter character scaleFactor)
       | None => None
       end;
     textureAtlasSize := textureAtlasSize json;
     data_characters :=
       (fun character =>
          {| char_config :=
               rescaleCharacter (char_config character) scaleFactor;
             textureAtlasPosition := textureAtlasPosition character |})
         <$> data_characters json |}.

(** [result] is a whole number within half a pixel of [field] times
    [scale]. *)
Definition rounded (scale field result : Q) : Prop :=
  (exists z : Z, result == inject_Z z)
  /\ - (1 # 2) < result - field * scale
  /\ result - field * scale <= 1 # 2.

Definition rounded_field (scale : Q) (field result : option Q) : Prop :=
  match field, result with
  | Some f, Some r => rounded scale f r
  | None, None => True
  | _, _ => False
  end.

(* ------------------------------------------------------------------ *)
(** * Properties *)

(** ** Sameness of numbers *)

#[global] Instance num_eq_equivalence : Equivalence num_eq.
Proof.
  split.
  - intros [p| | |]; simpl; auto. reflexivity.
  - intros [p| | |] [q| | |]; simpl; auto. intros H. symmetry. exact H.
  - intros [p| | |] [q| | |] [r| | |]; simpl; auto; try contradiction.
    intros H1 H2. rewrite H1. exact H2.
Qed.

(** ** Methods that only read *)

Lemma read_only_ret {A : Type} (a : A) : read_only (ret a).
Proof. intros w. reflexivity. Qed.

Lemma read_only_bind {A B : Type} (m : M A) (k : A -> M B) :
  read_only m -> (forall a, read_only (k a)) -> read_only (bind m k).
Proof.
  intros Hm Hk w. unfold eval, bind. rewrite (Hm w).
  specialize (Hk (eval m w) w). rewrite Hk at 1. reflexivity.
Qed.

Lemma read_only_reduceM {A B : Type} (f : B -> A -> M B) (l : list A) :
  (forall b a, read_only (f b a)) -> forall init, read_only (reduceM f l init).
Proof.
  intros Hf. induction l as [|a l IH]; intros init; simpl.
  - apply read_only_ret.
  - apply read_only_bind; auto.
Qed.

Lemma read_only_mapM {A B : Type} (f : A -> M B) (l : list A) :
  (forall a, read_only (f a)) -> read_only (mapM f l).
Proof.
  intros Hf. induction l as [|a l IH]; simpl.
  - apply read_only_ret.
  - apply read_only_bind; [apply Hf|]. intros b.
    apply read_only_bind; [apply IH|]. intros bs. apply read_only_ret.
Qed.

Lemma read_only_measureCharacterWidth character options :
  read_only (measureCharacterWidth character options).
Proof. intros w. reflexivity. Qed.

Lemma read_only_measureCharacterHeight character options :
  read_only (measureCharacterHeight character options).
Proof. intros w. reflexivity. Qed.

Lemma read_only_measureText text options :
  read_only (measureText text options).
Proof.
  unfold measureText.
  apply read_only_bind; [apply read_only_measureCharacterWidth|].
  intros lastCharacterWidth.
  apply read_only_bind.
  - apply read_only_reduceM. intros width character.
    apply read_only_bind; [apply read_only_measureCharacterWidth|].
    intros w. apply read_only_ret.
  - intros total. apply read_only_bind.
    + apply read_only_mapM. intros character.
      apply read_only_measureCharacterHeight.
    + intros heights. apply read_only_ret.
Qed.

Create HintDb read_only.

#[local] Hint Resolve read_only_ret read_only_measureCharacterWidth
  read_only_measureCharacterHeight read_only_measureText : read_only.

(** The result of a bind of read-only computations. *)
Lemma eval_bind {A B : Type} (m : M A) (k : A -> M B) (w : World) :
  read_only m -> eval (bind m k) w = eval (k (eval m w)) w.
Proof. intros Hm. unfold eval, bind. rewrite (Hm w). reflexivity. Qed.

Lemma eval_reduceM {A B : Type} (f : B -> A -> M B) (l : list A) (w : World) :
  (forall b a, read_only (f b a)) ->
  forall init,
    eval (reduceM f l init) w = fold_left (fun b a => eval (f b a) w) l init.
Proof.
  intros Hf. induction l as [|a l IH]; intros init; simpl; [reflexivity|].
  rewrite eval_bind by apply Hf. apply IH.
Qed.

Lemma eval_mapM {A B : Type} (f : A -> M B) (l : list A) (w : World) :
  (forall a, read_only (f a)) ->
  eval (mapM f l) w = map (fun a => eval (f a) w) l.
Proof.
  intros Hf. induction l as [|a l IH]; simpl; [reflexivity|].
  rewrite eval_bind by apply Hf.
  rewrite eval_bind by (apply read_only_mapM, Hf).
  rewrite IH. reflexivity.
Qed.

(** ** Width and height of one character *)

(** C2. In monospace mode the width of a character is the kerning value
    if there is one, else the default width, else the intrinsic width
    of its tile, else 0, times the effective scale; the per-character
    table is not consulted, whatever it holds for the character. *)
Theorem measureCharacterWidth_monospace :
  forall (w : World) (character : jsstring)
         (options : ImageFontRenderingOptions),
    monospace options = Some true ->
    eval (measureCharacterWidth character (Some options)) w
    = (kerning options
         ?? defaultCharacterConfig (config (this w)) ?. char_width
         ?? textures (this w) !! character ?.. tex_width
         ?? 0)
      * ((opt_scale options ?? 1) * (cfg_scale (config (this w)) ?? 1))
    /\ forall table,
         eval (measureCharacterWidth character (Some options))
              (with_characters w table)
         = eval (measureCharacterWidth character (Some options)) w.
Proof.
  intros w character options Hmono. split.
  - unfold measureCharacterWidth, eval, bind, this_config, this_textures, ret.
    simpl. rewrite Hmono. simpl.
    destruct (kerning options); reflexivity.
  - intros table.
    unfold measureCharacterWidth, eval, bind, this_config, this_textures, ret.
    simpl. rewrite Hmono. reflexivity.
Qed.

(** The width of a character outside monospace mode. *)
Lemma measureCharacterWidth_not_monospace (w : World) (character : jsstring)
    (options : option ImageFontRenderingOptions) :
  truthy_bool (options ?. monospace) = false ->
  eval (measureCharacterWidth character options) w
  = (characters (config (this w)) !! character ?. char_width
       ?? defaultCharacterConfig (config (this w)) ?. char_width
       ?? textures (this w) !! character ?.. tex_width
       ?? 0)
    * (options ?. kerning ?? 1)
    * ((options ?. opt_scale ?? 1) * (cfg_scale (config (this w)) ?? 1)).
Proof.
  intros Hprop.
  unfold measureCharacterWidth, eval, bind, this_config, this_textures, ret.
  simpl. rewrite Hprop. reflexivity.
Qed.

(** C3. Outside monospace mode the width of a character is its own
    width, else the default width, else the intrinsic width of its
    tile, else 0, times the kerning factor (1 by default) and the
    effective scale; a character with no width in the per-character
    table, no default width and no tile has width 0. *)
Theorem measureCharacterWidth_proportional :
  forall (w : World) (character : jsstring)
         (options : option ImageFontRenderingOptions),
    truthy_bool (options ?. monospace) = false ->
    eval (measureCharacterWidth character options) w
    = (characters (config (this w)) !! character ?. char_width
         ?? defaultCharacterConfig (config (this w)) ?. char_width
         ?? textures (this w) !! character ?.. tex_width
         ?? 0)
      * (options ?. kerning ?? 1)
      * ((options ?. opt_scale ?? 1) * (cfg_scale (config (this w)) ?? 1))
    /\ (characters (config (this w)) !! character ?. char_width = None ->
        defaultCharacterConfig (config (this w)) ?. char_width = None ->
        textures (this w) !! character = None ->
        eval (measureCharacterWidth character options) w == 0).
Proof.
  intros w character options Hprop.
  pose proof (measureCharacterWidth_not_monospace w character options Hprop)
    as Heval.
  split; [exact Heval|].
  intros Hchar Hdefault Htile. rewrite Heval, Hchar, Hdefault, Htile.
  simpl. ring.
Qed.

(** ** The measured box *)

(** What [measureText] computes, with the loops unrolled into folds. *)
Lemma measureText_eval (w : World) (text : jsstring)
    (options : option ImageFontRenderingOptions) :
  eval (measureText text options) w
  = Vec2
      (Fin
         (fold_left
            (fun width character =>
               width + eval (measureCharacterWidth character options) w)
            (Array_slice (split_units text) 0
               (Z.of_nat (List.length text) - 1))
            0
          + eval
              (measureCharacterWidth
                 (ToPropertyKey
                    (char_at text (Z.of_nat (List.length text) - 1)))
                 (Some (only_scale (options ?. opt_scale))))
              w))
      (Math_max
         (map Fin
            (map (fun character =>
                    eval (measureCharacterHeight character options) w)
                 (split_units text)))).
Proof.
  unfold measureText.
  rewrite eval_bind by auto with read_only.
  assert (Hf : forall (b : Q) (a : jsstring),
             read_only (bind (measureCharacterWidth a options)
                             (fun x => ret (b + x)))).
  { intros b a. apply read_only_bind; auto with read_only. }
  rewrite eval_bind by (apply read_only_reduceM, Hf).
  rewrite eval_bind
    by (apply read_only_mapM; intros; auto with read_only).
  rewrite eval_reduceM by apply Hf.
  rewrite eval_mapM by (intros; auto with read_only).
  reflexivity.
Qed.

Lemma length_split_units (text : jsstring) :
  List.length (split_units text) = List.length text.
Proof. unfold split_units. apply length_map. Qed.

Lemma char_at_last (init : jsstring) (last : N) :
  char_at (init ++ [last]) (Z.of_nat (List.length (init ++ [last])) - 1)
  = Some [last].
Proof.
  unfold char_at. rewrite length_app. simpl.
  replace (Z.of_nat (List.length init + 1) - 1)%Z
    with (Z.of_nat (List.length init)) by lia.
  destruct (Z.ltb_spec (Z.of_nat (List.length init)) 0); [lia|].
  rewrite Nat2Z.id, nth_error_app2 by lia.
  rewrite Nat.sub_diag. reflexivity.
Qed.

Lemma slice_all_but_last (init : jsstring) (last : N) :
  Array_slice (split_units (init ++ [last])) 0
    (Z.of_nat (List.length (init ++ [last])) - 1)
  = split_units init.
Proof.
  unfold Array_slice. rewrite length_split_units, length_app. simpl.
  replace (Z.of_nat (List.length init + 1) - 1)%Z
    with (Z.of_nat (List.length init)) by lia.
  unfold relative_index. simpl.
  destruct (Z.ltb_spec (Z.of_nat (List.length init)) 0); [lia|].
  rewrite Z.min_l, Z.min_l by lia.
  rewrite Z.sub_0_r, Nat2Z.id.
  change (Z.to_nat 0) with 0%nat. rewrite skipn_O.
  unfold split_units. rewrite map_app.
  rewrite firstn_app, length_map, Nat.sub_diag. simpl.
  rewrite app_nil_r. apply firstn_all2. rewrite length_map. lia.
Qed.

Lemma fold_left_Qplus (f : jsstring -> Q) (l : list jsstring) (acc : Q) :
  fold_left (fun width character => width + f character) l acc
  == acc + Qsum (map f l).
Proof.
  revert acc. induction l as [|a l IH]; intros acc; simpl.
  - ring.
  - rewrite IH. ring.
Qed.

(** C1. The measured width of a non-empty text is the sum of the widths
    of all its characters but the last, under the options as given,
    plus the width of the last character under options that keep the
    scale only; three characters of proportional width 10 measured with
    kerning 2 are 50 wide. *)
Theorem measureText_width :
  forall (w : World) (options : option ImageFontRenderingOptions),
    (forall (init : jsstring) (last : N),
        vec_x (eval (measureText (init ++ [last]) options) w)
        =n= Fin
              (Qsum
                 (map (fun character =>
                         eval (measureCharacterWidth character options) w)
                      (split_units init))
               + eval
                   (measureCharacterWidth [last]
                      (Some (only_scale (options ?. opt_scale))))
                   w))
    /\ (forall (a b c : N),
           truthy_bool (options ?. monospace) = false ->
           options ?. kerning = Some 2 ->
           (forall u, In u [a; b; c] ->
              eval
                (measureCharacterWidth [u]
                   (Some (only_scale (options ?. opt_scale))))
                w == 10) ->
           vec_x (eval (measureText [a; b; c] options) w) =n= Fin 50).
Proof.
  intros w options.
  assert (Hgen : forall (init : jsstring) (last : N),
    vec_x (eval (measureText (init ++ [last]) options) w)
    =n= Fin
          (Qsum
             (map (fun character =>
                     eval (measureCharacterWidth character options) w)
                  (split_units init))
           + eval
               (measureCharacterWidth [last]
                  (Some (only_scale (options ?. opt_scale))))
               w)).
  { intros init last. rewrite measureText_eval.
    rewrite char_at_last, slice_all_but_last.
    cbn [vec_x num_eq ToPropertyKey].
    rewrite fold_left_Qplus. ring. }
  split; [exact Hgen|].
  intros a b c Hprop Hkern Hten.
  assert (Hdouble : forall u, In u [a; b; c] ->
            eval (measureCharacterWidth [u] options) w == 20).
  { intros u Hu. specialize (Hten u Hu).
    pose proof (measureCharacterWidth_not_monospace w [u] options Hprop)
      as Hfull.
    pose proof (measureCharacterWidth_not_monospace w [u]
                  (Some (only_scale (options ?. opt_scale))) eq_refl)
      as Hlast.
    rewrite Hlast in Hten. rewrite Hfull, Hkern. simpl in *.
    lra. }
  etransitivity; [exact (Hgen [a; b] c)|].
  cbn [num_eq split_units map Qsum fold_right].
  rewrite (Hdouble a), (Hdouble b), (Hten c) by (simpl; auto).
  reflexivity.
Qed.

(** C10. The measured width of a one-character text is the character's
    own width, else the default width, else the intrinsic width of its
    tile, else 0, times the effective scale, whatever the kerning and
    monospace options are. *)
Theorem measureText_single_character :
  forall (w : World) (u : N) (options : option ImageFontRenderingOptions),
    vec_x (eval (measureText [u] options) w)
    =n= Fin
          ((characters (config (this w)) !! [u] ?. char_width
              ?? defaultCharacterConfig (config (this w)) ?. char_width
              ?? textures (this w) !! [u] ?.. tex_width
              ?? 0)
           * ((options ?. opt_scale ?? 1)
              * (cfg_scale (config (this w)) ?? 1))).
Proof.
  intros w u options. rewrite measureText_eval.
  change (char_at [u] (Z.of_nat (List.length [u]) - 1)) with (Some [u]).
  change (Array_slice (split_units [u]) 0 (Z.of_nat (List.length [u]) - 1))
    with (@nil jsstring).
  cbn [vec_x num_eq ToPropertyKey fold_left].
  rewrite (measureCharacterWidth_not_monospace w [u]
             (Some (only_scale (options ?. opt_scale))) eq_refl).
  cbn [chain only_scale kerning opt_scale nullish].
  unfold jsstring. ring.
Qed.

(** The empty text: the last character is [undefined], no width is
    summed, and the maximum of no heights is minus infinity. *)
Lemma measureText_empty (w : World)
    (options : option ImageFontRenderingOptions) :
  eval (measureText [] options) w
  = Vec2
      (Fin (0 + eval
                  (measureCharacterWidth (lit "undefined")
                     (Some (only_scale (options ?. opt_scale))))
                  w))
      NegInfinity.
Proof. rewrite measureText_eval. reflexivity. Qed.

(** C4. Measuring the empty text does return, but not a box of size
    zero: the height is minus infinity for every font, and the width
    is that of the key "undefined", 32 pixels for the sample font. *)
Theorem measureText_empty_string :
  (forall (w : World) (options : option ImageFontRenderingOptions),
      vec_y (eval (measureText [] options) w) = NegInfinity)
  /\ eval (measureText (lit "") None) sample_world
     = Vec2 (Fin 32) NegInfinity.
Proof.
  split.
  - intros w options. rewrite measureText_empty. reflexivity.
  - vm_compute. reflexivity.
Qed.

(** The maximum of a non-empty list of rationals is one of them and
    bounds them all. *)
Lemma fold_num_max_Fin (hs : list Q) (acc : Q) :
  exists h,
    fold_left num_max (map Fin hs) (Fin acc) = Fin h
    /\ (h = acc \/ In h hs)
    /\ acc <= h
    /\ forall h', In h' hs -> h' <= h.
Proof.
  revert acc. induction hs as [|a hs IH]; intros acc; simpl.
  - exists acc. repeat split; auto; [apply Qle_refl | tauto].
  - destruct (Qle_bool acc a) eqn:Hle.
    + apply Qle_bool_iff in Hle.
      destruct (IH a) as (h & Hfold & Hin & Hacc & Hall).
      exists h. repeat split; auto.
      * destruct Hin as [->|Hin]; auto.
      * eapply Qle_trans; eauto.
      * intros h' [<-|Hh']; auto.
    + assert (Hlt : a <= acc).
      { destruct (Qlt_le_dec acc a) as [Hlt|Hge]; auto.
        apply Qlt_le_weak, Qle_bool_iff in Hlt. congruence. }
      destruct (IH acc) as (h & Hfold & Hin & Hacc & Hall).
      exists h. repeat split; auto.
      * destruct Hin as [->|Hin]; auto.
      * intros h' [<-|Hh']; auto. eapply Qle_trans; eauto.
Qed.

Lemma Math_max_Fin (a : Q) (hs : list Q) :
  exists h,
    Math_max (map Fin (a :: hs)) = Fin h
    /\ In h (a :: hs)
    /\ forall h', In h' (a :: hs) -> h' <= h.
Proof.
  unfold Math_max. simpl.
  destruct (fold_num_max_Fin hs a) as (h & Hfold & Hin & Hacc & Hall).
  exists h. repeat split; auto.
  - destruct Hin as [->|Hin]; auto.
  - intros h' [<-|Hh']; auto.
Qed.

(** C5. The height of a character is its own height, else the default
    height, else 0, times the effective scale, whatever its tile is;
    the measured height of a non-empty text is the largest of the
    heights of its characters. *)
Theorem measureText_height :
  forall (w : World) (options : option ImageFontRenderingOptions),
    (forall character : jsstring,
        eval (measureCharacterHeight character options) w
        = (characters (config (this w)) !! character ?. char_height
             ?? defaultCharacterConfig (config (this w)) ?. char_height
             ?? 0)
          * ((options ?. opt_scale ?? 1)
             * (cfg_scale (config (this w)) ?? 1)))
    /\ (forall text : jsstring,
           text <> [] ->
           exists h,
             vec_y (eval (measureText text options) w) = Fin h
             /\ (exists character,
                    In character (split_units text)
                    /\ h = eval (measureCharacterHeight character options) w)
             /\ (forall character,
                    In character (split_units text) ->
                    eval (measureCharacterHeight character options) w <= h)).
Proof.
  intros w options. split; [reflexivity|].
  intros [|u text] Hne; [congruence|].
  rewrite measureText_eval. cbn [vec_y split_units map].
  destruct (Math_max_Fin
              (eval (measureCharacterHeight [u] options) w)
              (map (fun character =>
                      eval (measureCharacterHeight character options) w)
                   (map (fun u => [u]) text)))
    as (h & Hmax & Hin & Hall).
  exists h. split; [exact Hmax|]. split.
  - change (In h (map (fun character =>
                         eval (measureCharacterHeight character options) w)
                      ([u] :: map (fun u => [u]) text))) in Hin.
    apply in_map_iff in Hin. destruct Hin as (c & Hc & Hin).
    exists c. split; [exact Hin | symmetry; exact Hc].
  - intros c Hc. apply Hall.
    change (In (eval (measureCharacterHeight c options) w)
               (map (fun character =>
                       eval (measureCharacterHeight character options) w)
                    ([u] :: map (fun u => [u]) text))).
    apply in_map_iff. exists c. split; [reflexivity | exact Hc].
Qed.

(** ** Properties kept by a run *)

Lemma maintains_read_only {A : Type} (P : World -> Prop) (m : M A) :
  read_only m -> maintains P m.
Proof. intros Hm w Hw. unfold exec. rewrite (Hm w). exact Hw. Qed.

Lemma maintains_bind {A B : Type} (P : World -> Prop) (m : M A)
    (k : A -> M B) :
  maintains P m -> (forall a, maintains P (k a)) -> maintains P (bind m k).
Proof.
  intros Hm Hk w Hw. unfold exec, bind.
  specialize (Hm w Hw). unfold exec in Hm.
  destruct (m w) as [a w']. apply (Hk a w' Hm).
Qed.

Lemma maintains_reduceM {A B : Type} (P : World -> Prop)
    (f : B -> A -> M B) (l : list A) :
  (forall b a, maintains P (f b a)) ->
  forall init, maintains P (reduceM f l init).
Proof.
  intros Hf. induction l as [|a l IH]; intros init; simpl.
  - apply maintains_read_only, read_only_ret.
  - apply maintains_bind; auto.
Qed.

Lemma maintains_emit (P : World -> Prop) (c : Call) :
  (forall w, P w -> P {| this := this w; calls := calls w ++ [c] |}) ->
  maintains P (emit c).
Proof. intros H w Hw. apply H, Hw. Qed.

(** ** The two revisions of [drawText] *)

Lemma drawCharacter_without_color
    (options : option ImageFontRenderingOptions) (actualScale : Q)
    (actualY currentX : number) (character : jsstring) (w : World) :
  truthy_string (options ?. color) = false ->
  drawCharacter options actualScale actualY currentX character w
  = IndexTs.drawCharacter options actualScale actualY currentX character w.
Proof.
  intros Hfalsy. unfold drawCharacter, IndexTs.drawCharacter, bind.
  destruct (measureCharacterWidth character options w) as [width w1].
  destruct (this_textures w1) as [atlas w2].
  destruct (atlas !! character) as [texture|]; [|reflexivity].
  destruct (this_config w2) as [cfg w3].
  destruct options as [opts|]; [|reflexivity].
  simpl in Hfalsy. destruct (color opts) as [[|u s]|];
    [reflexivity | discriminate Hfalsy | reflexivity].
Qed.

Lemma drawText_without_color (text : jsstring) (x y : Q)
    (options : option ImageFontRenderingOptions) (w : World) :
  truthy_string (options ?. color) = false ->
  drawText text x y options w = IndexTs.drawText text x y options w.
Proof.
  intros Hfalsy. unfold drawText, IndexTs.drawText, bind.
  destruct (measureText text options w) as [size w1].
  destruct (this_config w1) as [cfg w2].
  unfold drawCharacters.
  match goal with
  | |- (let (_, _) := reduceM ?f ?l ?c ?v in _)
       = (let (_, _) := reduceM ?g ?l ?c ?v in _) =>
      assert (Hloop : forall items cursor world,
                reduceM f items cursor world = reduceM g items cursor world)
  end.
  { induction items as [|character items IH]; intros cursor world; simpl;
      [reflexivity|].
    unfold bind. rewrite drawCharacter_without_color by exact Hfalsy.
    destruct (IndexTs.drawCharacter options _ _ cursor character world)
      as [cursor' world'].
    apply IH. }
  rewrite Hloop. reflexivity.
Qed.

(** ** Characters without a tile *)

Lemma drawCharacter_no_tile (w : World)
    (options : option ImageFontRenderingOptions) (actualScale : Q)
    (actualY currentX : number) (character : jsstring) :
  textures (this w) !! character = None ->
  drawCharacter options actualScale actualY currentX character w
  = (num_add currentX
       (Fin (eval (measureCharacterWidth character options) w)), w).
Proof.
  intros Htile. unfold drawCharacter, bind.
  rewrite (read_only_measureCharacterWidth character options w).
  unfold this_textures. rewrite Htile. reflexivity.
Qed.

Lemma drawCharacters_no_tiles (w : World)
    (options : option ImageFontRenderingOptions) (actualScale : Q)
    (actualY : number) (items : list jsstring) :
  Forall (fun character => textures (this w) !! character = None) items ->
  forall currentX,
    exec (drawCharacters options actualScale actualY items currentX) w = w.
Proof.
  induction 1 as [|character items Htile _ IH]; intros currentX.
  - reflexivity.
  - unfold drawCharacters, exec. simpl. unfold bind at 1.
    rewrite drawCharacter_no_tile by exact Htile. apply IH.
Qed.

(** C6. A character whose tile is not in the atlas, configured or not,
    moves the cursor on by its width and leaves everything else as it
    was: nothing is drawn, the turn of the loop completes and the loop
    goes on from the new cursor; a text none of whose characters has a
    tile draws nothing. *)
Theorem drawText_missing_tile :
  forall (w : World) (options : option ImageFontRenderingOptions),
    (forall (actualScale : Q) (actualY currentX : number)
            (character : jsstring),
        textures (this w) !! character = None ->
        drawCharacter options actualScale actualY currentX character w
        = (num_add currentX
             (Fin (eval (measureCharacterWidth character options) w)), w))
    /\ (forall (actualScale : Q) (actualY currentX : number)
               (character : jsstring) (rest : list jsstring),
           textures (this w) !! character = None ->
           drawCharacters options actualScale actualY (character :: rest)
             currentX w
           = drawCharacters options actualScale actualY rest
               (num_add currentX
                  (Fin (eval (measureCharacterWidth character options) w)))
               w)
    /\ (forall (text : jsstring) (x y : Q),
           Forall (fun character => textures (this w) !! character = None)
                  (code_points text) ->
           drawText text x y options w = (tt, w)).
Proof.
  intros w options.
  pose proof (drawCharacter_no_tile w options) as Hstep.
  split; [intros; apply Hstep; assumption|]. split.
  - intros actualScale actualY currentX character rest Htile.
    unfold drawCharacters. simpl. unfold bind at 1.
    rewrite Hstep by exact Htile. reflexivity.
  - intros text x y Hall.
    unfold drawText, bind.
    rewrite (read_only_measureText text options w).
    unfold this_config.
    match goal with
    | |- (let (_, _) := ?run w in _) = _ =>
        pose proof (drawCharacters_no_tiles w options _ _ _ Hall _
                    : exec run w = w) as Hrun;
        unfold exec in Hrun; destruct (run w) as [cursor w'];
        simpl in Hrun; subst w'
    end.
    reflexivity.
Qed.

(** ** The origin of the drawing *)

(** C7. [drawText] runs its loop over the code points of the text from
    an origin that is: horizontally, [x] when the alignment is left or
    not given, [x] less half the measured width when it is center and
    [x] less the measured width when it is right; vertically, [y] when
    the base line is top or not given, [y] less half the measured
    height when it is middle and [y] less the measured height when it
    is bottom. *)
Theorem drawText_origin :
  forall (w : World) (text : jsstring) (x y : Q)
         (options : option ImageFontRenderingOptions),
    exists originX originY : number,
      drawText text x y options w
      = (tt,
         exec
           (drawCharacters options
              ((options ?. opt_scale ?? 1)
               * (cfg_scale (config (this w)) ?? 1))
              originY (code_points text) originX)
           w)
      /\ (options ?. align = None \/ options ?. align = Some Align.left ->
          originX = Fin x)
      /\ (options ?. align = Some Align.center ->
          originX
          = num_sub (Fin x)
              (num_div (vec_x (eval (measureText text options) w)) (Fin 2)))
      /\ (options ?. align = Some Align.right ->
          originX
          = num_sub (Fin x) (vec_x (eval (measureText text options) w)))
      /\ (options ?. baseLine = None
          \/ options ?. baseLine = Some BaseLine.top ->
          originY = Fin y)
      /\ (options ?. baseLine = Some BaseLine.middle ->
          originY
          = num_sub (Fin y)
              (num_div (vec_y (eval (measureText text options) w)) (Fin 2)))
      /\ (options ?. baseLine = Some BaseLine.bottom ->
          originY
          = num_sub (Fin y) (vec_y (eval (measureText text options) w))).
Proof.
  intros w text x y options.
  unfold drawText, bind.
  rewrite (read_only_measureText text options w).
  unfold this_config.
  set (size := eval (measureText text options) w).
  match goal with
  | |- context [drawCharacters _ _ ?oy _ ?ox w] => exists ox, oy
  end.
  split.
  - unfold exec.
    match goal with
    | |- (let (_, _) := ?run in _) = _ =>
        destruct run as [cursor w']; reflexivity
    end.
  - destruct (options ?. align) as [[| |]|];
      destruct (options ?. baseLine) as [[| |]|];
      repeat split; try reflexivity; intros H;
      try discriminate H; try (destruct H as [H|H]; discriminate H).
Qed.

(** ** What a run leaves alone *)

Lemma maintains_update_colorCache_fixed
    (b : gmap jsstring HTMLCanvasElement * ImageFontConfig) f :
  maintains (fun w => fixed_part w = b) (update_colorCache f).
Proof. intros w Hw. exact Hw. Qed.

Lemma maintains_createColoredTexture (P : World -> Prop) texture color mode fn :
  (forall w c, P w -> P {| this := this w; calls := calls w ++ [c] |}) ->
  maintains P (createColoredTexture texture color mode fn).
Proof.
  intros HP. unfold createColoredTexture.
  apply maintains_bind; [apply maintains_emit; intros; apply HP; assumption|].
  intros _. apply maintains_read_only, read_only_ret.
Qed.

Lemma maintains_coloredTexture_fixed
    (b : gmap jsstring HTMLCanvasElement * ImageFontConfig)
    character texture options color :
  maintains (fun w => fixed_part w = b)
    (coloredTexture character texture options color).
Proof.
  unfold coloredTexture.
  apply maintains_bind; [apply maintains_read_only; intros w; reflexivity|].
  intros cache. destruct (Map_get cache _).
  - apply maintains_read_only, read_only_ret.
  - apply maintains_bind;
      [apply maintains_createColoredTexture; intros w c Hw; exact Hw|].
    intros finalTexture.
    apply maintains_bind; [apply maintains_read_only; intros w; reflexivity|].
    intros cache'. apply maintains_bind.
    + destruct (MAX_COLOR_CACHE_SIZE <=? Map_size cache')%nat;
        [destruct (Map_first_key cache')|];
        first [ apply maintains_update_colorCache_fixed
              | apply maintains_read_only, read_only_ret ].
    + intros _. apply maintains_bind;
        [apply maintains_update_colorCache_fixed|].
      intros _. apply maintains_read_only, read_only_ret.
Qed.

(** One turn of the loop, split at the choice of the tile to draw. *)
Lemma maintains_drawCharacter (P : World -> Prop)
    options actualScale actualY currentX character :
  (forall w c, P w -> P {| this := this w; calls := calls w ++ [c] |}) ->
  (forall texture opts u s,
      options = Some opts -> color opts = Some (u :: s) ->
      maintains P (coloredTexture character texture opts (u :: s))) ->
  maintains P
    (drawCharacter options actualScale actualY currentX character).
Proof.
  intros Hemit Hcolored. unfold drawCharacter.
  apply maintains_bind;
    [apply maintains_read_only, read_only_measureCharacterWidth|].
  intros characterWidth.
  apply maintains_bind; [apply maintains_read_only; intros w; reflexivity|].
  intros atlas. destruct (atlas !! character) as [texture|];
    [|apply maintains_read_only, read_only_ret].
  apply maintains_bind; [apply maintains_read_only; intros w; reflexivity|].
  intros cfg. apply maintains_bind.
  - destruct options as [opts|];
      [|apply maintains_read_only, read_only_ret].
    destruct (color opts) as [[|u s]|] eqn:Hcolor;
      try (apply maintains_read_only, read_only_ret).
    apply (Hcolored texture opts u s eq_refl Hcolor).
  - intros finalTexture. apply maintains_bind.
    + apply maintains_emit. intros w Hw. apply Hemit, Hw.
    + intros _. apply maintains_read_only, read_only_ret.
Qed.

Lemma maintains_drawText (P : World -> Prop) text x y options :
  (forall actualScale actualY currentX character,
      maintains P
        (drawCharacter options actualScale actualY currentX character)) ->
  maintains P (drawText text x y options).
Proof.
  intros Hturn. unfold drawText.
  apply maintains_bind; [apply maintains_read_only, read_only_measureText|].
  intros size.
  apply maintains_bind; [apply maintains_read_only; intros w; reflexivity|].
  intros cfg. apply maintains_bind.
  - unfold drawCharacters. apply maintains_reduceM.
    intros currentX character. apply Hturn.
  - intros _. apply maintains_read_only, read_only_ret.
Qed.

Lemma maintains_drawCharacter_fixed
    (b : gmap jsstring HTMLCanvasElement * ImageFontConfig)
    options actualScale actualY currentX character :
  maintains (fun w => fixed_part w = b)
    (drawCharacter options actualScale actualY currentX character).
Proof.
  apply maintains_drawCharacter.
  - intros w c Hw. exact Hw.
  - intros. apply maintains_coloredTexture_fixed.
Qed.

Lemma maintains_drawCharacter_no_color (t : ImageFont)
    options actualScale actualY currentX character :
  truthy_string (options ?. color) = false ->
  maintains (fun w => this w = t)
    (drawCharacter options actualScale actualY currentX character).
Proof.
  intros Hfalsy. apply maintains_drawCharacter.
  - intros w c Hw. exact Hw.
  - intros texture opts u s -> Hcolor. simpl in Hfalsy.
    rewrite Hcolor in Hfalsy. discriminate Hfalsy.
Qed.

Lemma step_fixed_part (w w' : World) :
  step w w' -> fixed_part w' = fixed_part w.
Proof.
  intros Hstep.
  destruct Hstep.
  - apply (maintains_read_only (fun w' => fixed_part w' = fixed_part w)
             _ (read_only_measureCharacterWidth _ _)); reflexivity.
  - apply (maintains_read_only (fun w' => fixed_part w' = fixed_part w)
             _ (read_only_measureCharacterHeight _ _)); reflexivity.
  - apply (maintains_read_only (fun w' => fixed_part w' = fixed_part w)
             _ (read_only_measureText _ _)); reflexivity.
  - apply (maintains_createColoredTexture
             (fun w' => fixed_part w' = fixed_part w));
      [intros w1 c Hw1; exact Hw1 | reflexivity].
  - apply (maintains_coloredTexture_fixed (fixed_part w)); reflexivity.
  - apply (maintains_drawCharacter_fixed (fixed_part w)); reflexivity.
  - apply (maintains_drawText (fun w' => fixed_part w' = fixed_part w));
      [intros; apply maintains_drawCharacter_fixed | reflexivity].
Qed.

(** C9. [measureText] hands the world back as it got it; no run of any
    method, and no sequence of runs, changes the atlas or the
    configuration the constructor stored; [drawText] changes nothing of
    the instance when no truthy colour is asked for, so that the colour
    cache is all it can change. *)
Theorem instance_frame :
  (forall (w : World) (text : jsstring)
          (options : option ImageFontRenderingOptions),
      measureText text options w = (eval (measureText text options) w, w))
  /\ (forall w w' : World,
         rtc step w w' ->
         textures (this w') = textures (this w)
         /\ config (this w') = config (this w))
  /\ (forall (w : World) (text : jsstring) (x y : Q)
             (options : option ImageFontRenderingOptions),
         textures (this (exec (drawText text x y options) w))
         = textures (this w)
         /\ config (this (exec (drawText text x y options) w))
            = config (this w)
         /\ (truthy_string (options ?. color) = false ->
             this (exec (drawText text x y options) w) = this w)).
Proof.
  split; [|split].
  - intros w text options. apply read_only_measureText.
  - intros w w' Hsteps.
    assert (Hfixed : fixed_part w' = fixed_part w).
    { induction Hsteps as [|w1 w2 w3 Hstep _ IH]; [reflexivity|].
      rewrite IH. apply step_fixed_part, Hstep. }
    unfold fixed_part in Hfixed. inversion Hfixed. split; reflexivity.
  - intros w text x y options.
    pose proof (step_fixed_part w _ (step_drawText w text x y options))
      as Hfixed.
    unfold fixed_part in Hfixed. inversion Hfixed as [[Htex Hcfg]].
    repeat split; auto.
    intros Hfalsy.
    apply (maintains_drawText (fun w' => this w' = this w));
      [|reflexivity].
    intros. apply maintains_drawCharacter_no_color, Hfalsy.
Qed.

(** ** The colour cache *)

Lemma Map_get_None {V : Type} (m : JSMap V) (k : jsstring) :
  Map_get m k = None <-> ~ In k (Map_keys m).
Proof.
  induction m as [|[k' v] m IH]; simpl.
  - tauto.
  - destruct (decide (k' = k)) as [->|Hne].
    + split; [discriminate | intros H; exfalso; apply H; auto].
    + rewrite IH. tauto.
Qed.

Lemma Map_set_fresh {V : Type} (m : JSMap V) (k : jsstring) (v : V) :
  Map_get m k = None -> Map_set m k v = m ++ [(k, v)].
Proof.
  induction m as [|[k' v'] m IH]; simpl; [reflexivity|].
  destruct (decide (k' = k)); [discriminate|].
  intros H. rewrite IH by exact H. reflexivity.
Qed.

Lemma Map_get_set {V : Type} (m : JSMap V) (k : jsstring) (v : V) :
  Map_get (Map_set m k v) k = Some v.
Proof.
  induction m as [|[k' v'] m IH]; simpl.
  - destruct (decide (k = k)); [reflexivity | congruence].
  - destruct (decide (k' = k)) as [->|Hne]; simpl.
    + destruct (decide (k = k)); [reflexivity | congruence].
    + destruct (decide (k' = k)); [congruence | exact IH].
Qed.

Lemma Map_keys_app {V : Type} (m1 m2 : JSMap V) :
  Map_keys (m1 ++ m2) = Map_keys m1 ++ Map_keys m2.
Proof. unfold Map_keys. apply map_app. Qed.

Lemma MAX_COLOR_CACHE_SIZE_pos : (0 < MAX_COLOR_CACHE_SIZE)%nat.
Proof. unfold MAX_COLOR_CACHE_SIZE. lia. Qed.

Lemma coloredTexture_hit (w : World) character texture options color cached :
  Map_get (colorCache (this w))
    (getCacheKey character color (getColoringMode options)) = Some cached ->
  coloredTexture character texture options color w = (cached, w).
Proof.
  intros Hget. unfold coloredTexture, bind, this_colorCache.
  rewrite Hget. reflexivity.
Qed.

Lemma coloredTexture_miss (w : World) character texture options color :
  Map_get (colorCache (this w))
    (getCacheKey character color (getColoringMode options)) = None ->
  let made :=
    {| tex_width := tex_width texture;
       tex_height := tex_height texture;
       tex_pixels :=
         Recolored (tex_pixels texture) color (getColoringMode options)
           (coloringFunction options) |} in
  coloredTexture character texture options color w
  = (made,
     {| this :=
          {| textures := textures (this w);
             config := config (this w);
             colorCache :=
               after_miss (colorCache (this w))
                 (getCacheKey character color (getColoringMode options))
                 made |};
        calls :=
          calls w
          ++ [CreateColoredTexture texture color (getColoringMode options)
                (coloringFunction options)] |}).
Proof.
  intros Hget made. unfold coloredTexture, bind, this_colorCache.
  rewrite Hget. unfold createColoredTexture, bind, emit, ret.
  cbn -[Nat.leb MAX_COLOR_CACHE_SIZE]. unfold after_miss.
  destruct (MAX_COLOR_CACHE_SIZE <=? Map_size (colorCache (this w)))%nat;
    [destruct (Map_first_key (colorCache (this w)))|]; reflexivity.
Qed.

Lemma after_miss_room (cache : JSMap HTMLCanvasElement) key made :
  Map_get cache key = None ->
  (Map_size cache < MAX_COLOR_CACHE_SIZE)%nat ->
  after_miss cache key made = cache ++ [(key, made)].
Proof.
  intros Hget Hsize. unfold after_miss.
  destruct (Nat.leb_spec MAX_COLOR_CACHE_SIZE (Map_size cache)); [lia|].
  apply Map_set_fresh, Hget.
Qed.

Lemma after_miss_full (cache : JSMap HTMLCanvasElement) key made :
  NoDup (Map_keys cache) ->
  Map_get cache key = None ->
  (MAX_COLOR_CACHE_SIZE <= Map_size cache)%nat ->
  exists oldest kept,
    cache = oldest :: kept
    /\ after_miss cache key made = kept ++ [(key, made)]
    /\ Map_get (after_miss cache key made) (fst oldest) = None.
Proof.
  intros Hnodup Hget Hsize. unfold after_miss.
  destruct (Nat.leb_spec MAX_COLOR_CACHE_SIZE (Map_size cache)); [|lia].
  destruct cache as [|[k0 v0] kept].
  - pose proof MAX_COLOR_CACHE_SIZE_pos. cbn [Map_size List.length] in Hsize.
    lia.
  - exists (k0, v0), kept. cbn [Map_first_key Map_delete fst].
    destruct (decide (k0 = k0)); [|congruence].
    cbn [Map_get] in Hget.
    destruct (decide (k0 = key)) as [|Hne]; [discriminate|].
    rewrite Map_set_fresh by exact Hget.
    repeat split.
    apply Map_get_None. rewrite Map_keys_app. simpl.
    inversion Hnodup as [|? ? Hnotin _]; subst.
    intros Hin. apply in_app_or in Hin. destruct Hin as [Hin|[Heq|[]]].
    + apply Hnotin. apply list_elem_of_In. exact Hin.
    + congruence.
Qed.

Lemma after_miss_inv (cache : JSMap HTMLCanvasElement) key made :
  cache_inv cache -> Map_get cache key = None ->
  cache_inv (after_miss cache key made).
Proof.
  intros [Hnodup Hsize] Hget.
  destruct (Nat.lt_ge_cases (Map_size cache) MAX_COLOR_CACHE_SIZE)
    as [Hroom|Hfull].
  - rewrite after_miss_room by assumption. split.
    + rewrite Map_keys_app. simpl. apply NoDup_app. repeat split.
      * exact Hnodup.
      * intros k Hk Hin. apply list_elem_of_In in Hk.
        apply list_elem_of_In in Hin. destruct Hin as [<-|[]].
        apply Map_get_None in Hget. contradiction.
      * apply NoDup_singleton.
    + unfold Map_size in *. rewrite length_app. simpl. lia.
  - destruct (after_miss_full cache key made Hnodup Hget Hfull)
      as (oldest & kept & -> & Hafter & _).
    rewrite Hafter.
    destruct oldest as [k0 v0]. cbn [Map_get] in Hget.
    destruct (decide (k0 = key)); [discriminate|].
    inversion Hnodup as [|? ? Hnotin Hkept]; subst. split.
    + rewrite Map_keys_app. simpl. apply NoDup_app. repeat split.
      * exact Hkept.
      * intros k Hk Hin. apply list_elem_of_In in Hk.
        apply list_elem_of_In in Hin. destruct Hin as [<-|[]].
        apply Map_get_None in Hget. contradiction.
      * apply NoDup_singleton.
    + unfold Map_size in *. rewrite length_app.
      cbn [List.length] in *. lia.
Qed.

Lemma maintains_coloredTexture_inv character texture options color :
  maintains (fun w => cache_inv (colorCache (this w)))
    (coloredTexture character texture options color).
Proof.
  intros w Hinv. unfold exec.
  destruct (Map_get (colorCache (this w))
              (getCacheKey character color (getColoringMode options)))
    as [cached|] eqn:Hget.
  - rewrite (coloredTexture_hit w _ _ _ _ cached Hget). exact Hinv.
  - rewrite (coloredTexture_miss w _ _ _ _ Hget).
    cbn [snd this colorCache]. apply after_miss_inv; assumption.
Qed.

Lemma step_cache_inv (w w' : World) :
  step w w' ->
  cache_inv (colorCache (this w)) -> cache_inv (colorCache (this w')).
Proof.
  intros Hstep.
  pose proof (fun options actualScale actualY currentX character =>
    maintains_drawCharacter (fun w => cache_inv (colorCache (this w)))
      options actualScale actualY currentX character
      (fun w c Hw => Hw)
      (fun texture opts u s _ _ =>
         maintains_coloredTexture_inv character texture opts (u :: s)))
    as Hturn.
  destruct Hstep.
  - apply (maintains_read_only (fun w => cache_inv (colorCache (this w)))
             _ (read_only_measureCharacterWidth _ _)).
  - apply (maintains_read_only (fun w => cache_inv (colorCache (this w)))
             _ (read_only_measureCharacterHeight _ _)).
  - apply (maintains_read_only (fun w => cache_inv (colorCache (this w)))
             _ (read_only_measureText _ _)).
  - apply (maintains_createColoredTexture
             (fun w => cache_inv (colorCache (this w)))).
    intros w1 c Hw1. exact Hw1.
  - apply maintains_coloredTexture_inv.
  - apply Hturn.
  - apply (maintains_drawText (fun w => cache_inv (colorCache (this w)))).
    intros. apply Hturn.
Qed.

Lemma reachable_cache_inv (w : World) :
  reachable w -> cache_inv (colorCache (this w)).
Proof.
  intros (atlas & cfg & Hsteps).
  revert w Hsteps. apply rtc_ind_r.
  - split; [apply NoDup_nil_2|].
    cbn [fresh this constructor colorCache Map_empty Map_size List.length].
    lia.
  - intros w1 w2 _ Hstep IH. apply (step_cache_inv w1 w2 Hstep IH).
Qed.

(** C8. In every world an instance can be in, the colour cache holds at
    most 1000 entries.  A request for a key that is cached returns the
    cached tile and changes nothing: the recolouring routine does not
    run.  A request for a key that is not cached runs the routine once
    and caches what it made: as the newest entry when there is room,
    and otherwise in place of the oldest entry, the only one to go; a
    later request for the key of the evicted entry runs the routine
    again and caches the key again. *)
Theorem colorCache_fifo :
  forall w : World,
    reachable w ->
    (Map_size (colorCache (this w)) <= MAX_COLOR_CACHE_SIZE)%nat
    /\ forall (character : jsstring) (texture : HTMLCanvasElement)
              (options : ImageFontRenderingOptions) (color : jsstring),
         (forall cached,
             Map_get (colorCache (this w))
               (getCacheKey character color (getColoringMode options))
             = Some cached ->
             coloredTexture character texture options color w = (cached, w))
         /\ (Map_get (colorCache (this w))
               (getCacheKey character color (getColoringMode options))
             = None ->
             exists (made : HTMLCanvasElement) (w' : World),
               coloredTexture character texture options color w = (made, w')
               /\ calls w'
                  = calls w
                    ++ [CreateColoredTexture texture color
                          (getColoringMode options)
                          (coloringFunction options)]
               /\ Map_get (colorCache (this w'))
                    (getCacheKey character color (getColoringMode options))
                  = Some made
               /\ ((Map_size (colorCache (this w)) < MAX_COLOR_CACHE_SIZE)%nat ->
                   colorCache (this w')
                   = colorCache (this w)
                     ++ [(getCacheKey character color
                            (getColoringMode options), made)])
               /\ (Map_size (colorCache (this w)) = MAX_COLOR_CACHE_SIZE ->
                   exists oldest kept,
                     colorCache (this w) = oldest :: kept
                     /\ colorCache (this w')
                        = kept
                          ++ [(getCacheKey character color
                                 (getColoringMode options), made)]
                     /\ Map_get (colorCache (this w')) (fst oldest) = None
                     /\ forall character0 texture0 options0 color0,
                          getCacheKey character0 color0
                            (getColoringMode options0) = fst oldest ->
                          exists made0 w'',
                            coloredTexture character0 texture0 options0
                              color0 w' = (made0, w'')
                            /\ calls w''
                               = calls w'
                                 ++ [CreateColoredTexture texture0 color0
                                       (getColoringMode options0)
                                       (coloringFunction options0)]
                            /\ Map_get (colorCache (this w'')) (fst oldest)
                               = Some made0)).
Proof.
  intros w Hreach.
  destruct (reachable_cache_inv w Hreach) as [Hnodup Hsize].
  split; [exact Hsize|].
  intros character texture options color. split.
  - intros cached Hget. apply coloredTexture_hit, Hget.
  - intros Hget.
    pose proof (coloredTexture_miss w character texture options color Hget)
      as Hrun. cbv zeta in Hrun.
    eexists. eexists. split; [exact Hrun|].
    cbn [this calls colorCache]. split; [reflexivity|]. split.
    { unfold after_miss. apply Map_get_set. }
    split.
    { intros Hroom. apply after_miss_room; assumption. }
    intros Hfull.
    destruct (after_miss_full (colorCache (this w)) _
                {| tex_width := tex_width texture;
                   tex_height := tex_height texture;
                   tex_pixels :=
                     Recolored (tex_pixels texture) color
                       (getColoringMode options) (coloringFunction options) |}
                Hnodup Hget ltac:(lia))
      as (oldest & kept & Hcache & Hafter & Hgone).
    exists oldest, kept. split; [exact Hcache|]. split; [exact Hafter|].
    split; [exact Hgone|].
    intros character0 texture0 options0 color0 Hkey.
    match goal with
    | |- context [coloredTexture _ _ _ _ ?w1] => set (w' := w1) in *
    end.
    assert (Hget0 : Map_get (colorCache (this w'))
                      (getCacheKey character0 color0
                         (getColoringMode options0)) = None).
    { rewrite Hkey. exact Hgone. }
    pose proof (coloredTexture_miss w' character0 texture0 options0 color0
                  Hget0) as Hrun0. cbv zeta in Hrun0.
    eexists. eexists. split; [exact Hrun0|].
    cbn [this calls colorCache]. split; [reflexivity|].
    rewrite <- Hkey. unfold after_miss. apply Map_get_set.
Qed.

(* ------------------------------------------------------------------ *)
(** * The properties at work on the sample font *)

Lemma measureCharacterWidth_monospace_witness :
  monospace (with_monospace None) = Some true
  /\ eval (measureCharacterWidth (lit "A") (Some (with_monospace None)))
          sample_world
     = 32.
Proof.
  split; [reflexivity|].
  exact (proj1 (measureCharacterWidth_monospace sample_world (lit "A")
                  (with_monospace None) eq_refl)).
Defined.

Lemma measureCharacterWidth_proportional_witness :
  eval (measureCharacterWidth (lit "A") (Some (with_kerning 2))) sample_world
  = 74
  /\ eval (measureCharacterWidth (lit "Z") (Some (with_kerning 2))) ten_world
     == 0.
Proof.
  split.
  - exact (proj1 (measureCharacterWidth_proportional sample_world (lit "A")
                    (Some (with_kerning 2)) eq_refl)).
  - apply (proj2 (measureCharacterWidth_proportional ten_world (lit "Z")
                    (Some (with_kerning 2)) eq_refl)); reflexivity.
Defined.

Lemma measureText_width_witness :
  vec_x (eval (measureText (lit "ABC") (Some (with_kerning 2))) ten_world)
  =n= Fin 50.
Proof.
  apply (proj2 (measureText_width ten_world (Some (with_kerning 2)))
           65%N 66%N 67%N); [reflexivity | reflexivity |].
  intros u [<-|[<-|[<-|[]]]]; reflexivity.
Defined.

Lemma measureText_height_witness :
  lit "ABC" <> []
  /\ exists h,
       vec_y (eval (measureText (lit "ABC") None) sample_world) = Fin h
       /\ (exists character,
              In character (split_units (lit "ABC"))
              /\ h = eval (measureCharacterHeight character None) sample_world)
       /\ (forall character,
              In character (split_units (lit "ABC")) ->
              eval (measureCharacterHeight character None) sample_world <= h).
Proof.
  split; [discriminate|].
  apply (proj2 (measureText_height sample_world None) (lit "ABC")).
  discriminate.
Defined.

Lemma drawText_missing_tile_witness :
  textures (this bare_world) !! lit "A" = None
  /\ characters (config (this bare_world)) !! lit "A"
     = Some (sample_character 37)
  /\ drawCharacter None 1 (Fin 0) (Fin 5) (lit "A") bare_world
     = (num_add (Fin 5)
          (Fin (eval (measureCharacterWidth (lit "A") None) bare_world)),
        bare_world)
  /\ drawText (lit "ABC") 0 0 None bare_world = (tt, bare_world).
Proof.
  split; [reflexivity|]. split; [reflexivity|]. split.
  - apply (proj1 (drawText_missing_tile bare_world None)). reflexivity.
  - apply (proj2 (proj2 (drawText_missing_tile bare_world None))).
    repeat constructor.
Defined.

Lemma drawText_origin_witness :
  exists originX originY : number,
    drawText (lit "AXB") 100 50
      (Some (with_anchor Align.center BaseLine.bottom)) sample_world
    = (tt,
       exec
         (drawCharacters (Some (with_anchor Align.center BaseLine.bottom))
            (1 * 1) originY (code_points (lit "AXB")) originX)
         sample_world)
    /\ originX = num_sub (Fin 100) (num_div (Fin 106) (Fin 2))
    /\ originY = num_sub (Fin 50) (Fin 48).
Proof.
  destruct (drawText_origin sample_world (lit "AXB") 100 50
              (Some (with_anchor Align.center BaseLine.bottom)))
    as (originX & originY & Hrun & _ & Hcenter & _ & _ & _ & Hbottom).
  exists originX, originY. split; [exact Hrun|]. split.
  - apply Hcenter. reflexivity.
  - apply Hbottom. reflexivity.
Defined.

Lemma instance_frame_witness :
  textures
    (this (exec (drawText (lit "ABC") 0 0 (Some (with_color (lit "red"))))
             sample_world))
  = sample_textures
  /\ this (exec (drawText (lit "ABC") 0 0 None) sample_world)
     = this sample_world.
Proof.
  split.
  - apply (proj1 (proj2 instance_frame) sample_world).
    apply rtc_once. apply step_drawText.
  - apply (proj2 (proj2 instance_frame) sample_world). reflexivity.
Defined.

Lemma colorCache_fifo_witness :
  let w :=
    exec (drawText (lit "AB") 0 0 (Some (with_color (lit "red"))))
      sample_world in
  (Map_size (colorCache (this w)) <= MAX_COLOR_CACHE_SIZE)%nat
  /\ coloredTexture (lit "A") (sample_tile 0) (with_color (lit "red"))
       (lit "red") w
     = ({| tex_width := 64; tex_height := 64;
           tex_pixels := Recolored (AtlasTile 0) (lit "red") multiply None |},
        w).
Proof.
  intros w.
  assert (Hreach : reachable w).
  { exists sample_textures, sample_config.
    apply rtc_once. apply step_drawText. }
  destruct (colorCache_fifo w Hreach) as [Hsize Hrequest].
  split; [exact Hsize|].
  apply (proj1 (Hrequest (lit "A") (sample_tile 0) (with_color (lit "red"))
                  (lit "red"))).
  reflexivity.
Defined.

(** Drawing 1001 different characters in red fills the cache and evicts
    the entry of the first one, and of no other; drawing the first
    character again recolours it once more, caches it again and evicts
    the entry of the second. *)
Example colorCache_eviction_by_drawText :
  let red := Some (with_color (lit "red")) in
  let key := fun u => getCacheKey [u] (lit "red") multiply in
  let w := exec (drawText (wide_text 1001) 0 0 red) (wide_world 1001) in
  let w' := exec (drawText [0%N] 0 0 red) w in
  recolorings (calls w) = 1001%nat
  /\ Map_size (colorCache (this w)) = 1000%nat
  /\ Map_keys (colorCache (this w)) = map key (List.tl (wide_text 1001))
  /\ recolorings (calls w') = 1002%nat
  /\ Map_size (colorCache (this w')) = 1000%nat
  /\ Map_has (colorCache (this w')) (key 0%N) = true
  /\ Map_has (colorCache (this w')) (key 1%N) = false.
Proof. vm_compute. repeat split. Qed.

(* ------------------------------------------------------------------ *)
(** * Further properties of the class *)

(** ** What the measurements depend on *)

Lemma measureCharacterWidth_fixed (w1 w2 : World) character options :
  fixed_part w1 = fixed_part w2 ->
  eval (measureCharacterWidth character options) w1
  = eval (measureCharacterWidth character options) w2.
Proof.
  unfold fixed_part. intros H. inversion H as [[Htex Hcfg]].
  unfold measureCharacterWidth, eval, bind, this_config, this_textures, ret.
  simpl. rewrite Htex, Hcfg. reflexivity.
Qed.

Lemma advance_fixed (w1 w2 : World) options items from :
  fixed_part w1 = fixed_part w2 ->
  advance w1 options items from = advance w2 options items from.
Proof.
  intros H. unfold advance. revert from.
  induction items as [|c items IH]; intros from; simpl; [reflexivity|].
  rewrite (measureCharacterWidth_fixed w1 w2 c options H). apply IH.
Qed.

Lemma resolveOffset_fixed (w1 w2 : World) character :
  fixed_part w1 = fixed_part w2 ->
  resolveOffset w1 character = resolveOffset w2 character.
Proof.
  unfold fixed_part. intros H. inversion H as [[Htex Hcfg]].
  unfold resolveOffset. rewrite Hcfg. reflexivity.
Qed.

Lemma placement_fixed (w1 w2 : World) actualScale actualY cursor character :
  fixed_part w1 = fixed_part w2 ->
  placement w1 actualScale actualY cursor character
  = placement w2 actualScale actualY cursor character.
Proof.
  intros H. unfold placement, glyph.
  rewrite (resolveOffset_fixed w1 w2 character H).
  unfold fixed_part in H. inversion H as [[Htex Hcfg]]. rewrite Htex.
  reflexivity.
Qed.

(** ** The cursor *)

(** One turn of the loop returns the cursor moved on by the width of
    the character, tile or no tile, colour or no colour. *)
Lemma drawCharacter_cursor (w : World) options actualScale actualY currentX
    character :
  eval (drawCharacter options actualScale actualY currentX character) w
  = num_add currentX
      (Fin (eval (measureCharacterWidth character options) w)).
Proof.
  unfold eval, drawCharacter, bind.
  rewrite (read_only_measureCharacterWidth character options w).
  unfold this_textures, this_config.
  destruct (textures (this w) !! character) as [texture|]; [|reflexivity].
  match goal with
  | |- fst (let (_, _) := ?pick w in _) = _ => destruct (pick w) as [ft w1]
  end.
  reflexivity.
Qed.

Lemma drawCharacters_cursor (w : World) options actualScale actualY
    (items : list jsstring) (from : Q) :
  eval (drawCharacters options actualScale actualY items (Fin from)) w
  = Fin (advance w options items from).
Proof.
  revert w from. induction items as [|c items IH]; intros w from.
  - reflexivity.
  - unfold drawCharacters, eval. simpl. unfold bind at 1.
    pose proof (drawCharacter_cursor w options actualScale actualY
                  (Fin from) c) as Hcur.
    pose proof (maintains_drawCharacter_fixed (fixed_part w) options
                  actualScale actualY (Fin from) c w eq_refl) as Hfix.
    unfold eval in Hcur. unfold exec in Hfix.
    destruct (drawCharacter options actualScale actualY (Fin from) c w)
      as [cursor w1].
    simpl in Hcur, Hfix. subst cursor.
    change (fst (drawCharacters options actualScale actualY items
                   (Fin (from + eval (measureCharacterWidth c options) w))
                   w1)
            = Fin (advance w options (c :: items) from)).
    fold (eval (drawCharacters options actualScale actualY items
                  (Fin (from + eval (measureCharacterWidth c options) w)))
               w1).
    rewrite IH. rewrite (advance_fixed w1 w options _ _ Hfix).
    reflexivity.
Qed.


(** ** Code points *)

Lemma code_points_cons (u v : N) (rest : jsstring) :
  code_points (u :: v :: rest)
  = if is_high_surrogate u && is_low_surrogate v
    then [u; v] :: code_points rest
    else [u] :: code_points (v :: rest).
Proof. reflexivity. Qed.

Lemma code_points_facts (n : nat) :
  forall text : jsstring,
    (List.length text <= n)%nat ->
    Forall is_code_point (code_points text)
    /\ concat (code_points text) = text.
Proof.
  induction n as [|n IH]; intros text Hlen.
  - destruct text; [split; [constructor | reflexivity] | simpl in Hlen; lia].
  - destruct text as [|u [|v rest]].
    + split; [constructor | reflexivity].
    + split; [constructor; [left; eauto | constructor] | reflexivity].
    + rewrite code_points_cons.
      destruct (is_high_surrogate u && is_low_surrogate v) eqn:Hpair.
      * apply andb_true_iff in Hpair. destruct Hpair as [Hu Hv].
        destruct (IH rest) as [Hall Hcat];
          [cbn [List.length] in Hlen; lia|].
        split.
        -- constructor; [right; eauto 6 | exact Hall].
        -- cbn [concat]. rewrite Hcat. reflexivity.
      * destruct (IH (v :: rest)) as [Hall Hcat];
          [cbn [List.length] in *; lia|].
        split.
        -- constructor; [left; eauto | exact Hall].
        -- cbn [concat]. rewrite Hcat. reflexivity.
Qed.

Lemma code_points_are_code_points (text : jsstring) :
  Forall is_code_point (code_points text).
Proof. apply (code_points_facts (List.length text) text). lia. Qed.


(** ** The keys of the colour cache *)

Lemma first_separator {A : Type} (x : A) (a1 a2 b1 b2 : list A) :
  ~ In x a1 -> ~ In x a2 ->
  a1 ++ x :: b1 = a2 ++ x :: b2 -> a1 = a2 /\ b1 = b2.
Proof.
  revert a2. induction a1 as [|y a1 IH]; intros [|z a2] H1 H2 Heq;
    simpl in *.
  - inversion Heq. auto.
  - inversion Heq; subst. exfalso. apply H2. auto.
  - inversion Heq; subst. exfalso. apply H1. auto.
  - inversion Heq; subst.
    destruct (IH a2) as [-> ->]; auto.
Qed.

Lemma last_separator {A : Type} (x : A) (a1 a2 b1 b2 : list A) :
  ~ In x b1 -> ~ In x b2 ->
  a1 ++ x :: b1 = a2 ++ x :: b2 -> a1 = a2 /\ b1 = b2.
Proof.
  intros H1 H2 Heq.
  apply (f_equal (@rev A)) in Heq.
  rewrite !rev_app_distr in Heq. simpl in Heq.
  rewrite <- !app_assoc in Heq. simpl in Heq.
  apply first_separator in Heq.
  - destruct Heq as [Hb Ha].
    apply (f_equal (@rev A)) in Hb. apply (f_equal (@rev A)) in Ha.
    rewrite !rev_involutive in Hb, Ha. auto.
  - rewrite <- in_rev. exact H1.
  - rewrite <- in_rev. exact H2.
Qed.

Lemma ColoringMode_string_inj (m1 m2 : ColoringMode) :
  ColoringMode_string m1 = ColoringMode_string m2 -> m1 = m2.
Proof. destruct m1, m2; intros H; try reflexivity; discriminate H. Qed.

Lemma ColoringMode_string_no_colon (m : ColoringMode) :
  ~ In 58%N (ColoringMode_string m).
Proof.
  destruct m; cbv; intros H;
    repeat (destruct H as [H|H]; [discriminate H|]); exact H.
Qed.

Lemma getCacheKey_tail_inj (color1 color2 : jsstring) (m1 m2 : ColoringMode) :
  color1 ++ lit ":" ++ ColoringMode_string m1
  = color2 ++ lit ":" ++ ColoringMode_string m2 ->
  color1 = color2 /\ m1 = m2.
Proof.
  change (lit ":") with [58%N]. cbn [app]. intros Heq.
  apply last_separator in Heq; try apply ColoringMode_string_no_colon.
  destruct Heq as [Hc Hm]. split; [exact Hc|].
  apply ColoringMode_string_inj, Hm.
Qed.

Lemma getCacheKey_inj :
  forall (character1 character2 color1 color2 : jsstring)
         (mode1 mode2 : ColoringMode),
    is_code_point character1 ->
    is_code_point character2 ->
    getCacheKey character1 color1 mode1 = getCacheKey character2 color2 mode2 ->
    character1 = character2 /\ color1 = color2 /\ mode1 = mode2.
Proof.
  intros c1 c2 color1 color2 m1 m2 H1 H2. unfold getCacheKey.
  change (lit ":") with [58%N].
  destruct H1 as [[u1 ->]|(u1 & v1 & -> & Hu1 & Hv1)];
    destruct H2 as [[u2 ->]|(u2 & v2 & -> & Hu2 & Hv2)];
    cbn [app]; intros Heq.
  - inversion Heq as [[Hu Htail]]. subst.
    destruct (getCacheKey_tail_inj color1 color2 m1 m2) as [-> ->];
      [exact Htail | auto].
  - inversion Heq; subst. discriminate Hv2.
  - inversion Heq; subst. discriminate Hv1.
  - inversion Heq as [[Hu Hv Htail]]. subst.
    destruct (getCacheKey_tail_inj color1 color2 m1 m2) as [-> ->];
      [exact Htail | auto].
Qed.

(** X5. The cache key tells apart any two requests that differ in the
    character, the colour or the mode, the character being an item of
    a [for ... of] loop over a string. *)
Theorem getCacheKey_injective :
  forall (character1 character2 color1 color2 : jsstring)
         (mode1 mode2 : ColoringMode),
    is_code_point character1 ->
    is_code_point character2 ->
    getCacheKey character1 color1 mode1 = getCacheKey character2 color2 mode2 ->
    character1 = character2 /\ color1 = color2 /\ mode1 = mode2.
Proof. exact getCacheKey_inj. Qed.

(** A colour or a character with a colon in it does make two keys
    meet when the character is not a single code point. *)
Example getCacheKey_collision :
  getCacheKey (lit "a:b") (lit "c") multiply
  = getCacheKey (lit "a") (lit "b:c") multiply.
Proof. reflexivity. Qed.


(** ** The layout *)

Lemma placements_nil w options actualScale actualY from :
  placements w options actualScale actualY from [] = [].
Proof. reflexivity. Qed.

Lemma placements_cons w options actualScale actualY from character items :
  placements w options actualScale actualY from (character :: items)
  = placement w actualScale actualY from character
    ++ placements w options actualScale actualY
         (from + eval (measureCharacterWidth character options) w) items.
Proof. unfold placements. rewrite imap_cons. reflexivity. Qed.

Lemma placements_fixed (w1 w2 : World) options actualScale actualY from items :
  fixed_part w1 = fixed_part w2 ->
  placements w1 options actualScale actualY from items
  = placements w2 options actualScale actualY from items.
Proof.
  intros H. revert from. induction items as [|c items IH]; intros from.
  - reflexivity.
  - rewrite !placements_cons, IH.
    rewrite (placement_fixed w1 w2 _ _ _ _ H).
    rewrite (measureCharacterWidth_fixed w1 w2 c options H). reflexivity.
Qed.

Lemma length_placements w options actualScale actualY from items :
  List.length (placements w options actualScale actualY from items)
  = List.length
      (filter (fun character => is_Some (textures (this w) !! character))
         items).
Proof.
  revert from. induction items as [|c items IH]; intros from.
  - reflexivity.
  - rewrite placements_cons, length_app, IH. unfold placement.
    rewrite filter_cons.
    destruct (textures (this w) !! c) as [tile|] eqn:Htile.
    + destruct (decide (is_Some (Some tile))) as [|Hno];
        [reflexivity | exfalso; apply Hno; eauto].
    + destruct (decide (is_Some (@None HTMLCanvasElement))) as [Hyes|];
        [destruct Hyes; discriminate | reflexivity].
Qed.

Lemma length_geometry_placements w options actualScale actualY from items :
  List.length
    (omap geometry (placements w options actualScale actualY from items))
  = List.length (placements w options actualScale actualY from items).
Proof.
  revert from. induction items as [|c items IH]; intros from; [reflexivity|].
  rewrite placements_cons, omap_app, !length_app, IH.
  unfold placement. destruct (textures (this w) !! c); reflexivity.
Qed.

(** One turn of the loop when no colour is asked for. *)
Lemma drawCharacter_plain (w : World) options actualScale actualY from
    character :
  truthy_string (options ?. color) = false ->
  drawCharacter options actualScale actualY (Fin from) character w
  = (Fin (from + eval (measureCharacterWidth character options) w),
     {| this := this w;
        calls := calls w ++ placement w actualScale actualY from character |}).
Proof.
  intros Hfalsy. unfold drawCharacter, bind, placement.
  rewrite (read_only_measureCharacterWidth character options w).
  unfold this_textures, this_config.
  destruct (textures (this w) !! character) as [texture|].
  - assert (Hpick :
      match options with
      | Some opts =>
          match color opts with
          | Some (u :: s) =>
              coloredTexture character texture opts (u :: s)
          | _ => ret texture
          end
      | None => ret texture
      end = ret texture).
    { destruct options as [opts|]; [|reflexivity].
      simpl in Hfalsy. destruct (color opts) as [[|u s]|];
        [reflexivity | discriminate Hfalsy | reflexivity]. }
    rewrite Hpick. reflexivity.
  - rewrite app_nil_r. destruct w. reflexivity.
Qed.

Lemma drawCharacters_plain (w : World) options actualScale actualY items :
  truthy_string (options ?. color) = false ->
  forall from,
    drawCharacters options actualScale actualY items (Fin from) w
    = (Fin (advance w options items from),
       {| this := this w;
          calls :=
            calls w
            ++ placements w options actualScale actualY from items |}).
Proof.
  intros Hfalsy. revert w. induction items as [|c items IH]; intros w from.
  - unfold drawCharacters. simpl. unfold ret.
    rewrite placements_nil, app_nil_r. destruct w. reflexivity.
  - unfold drawCharacters in *. simpl. unfold bind at 1.
    rewrite drawCharacter_plain by exact Hfalsy.
    rewrite IH. cbn [this calls].
    set (w1 := {| this := this w;
                  calls := calls w
                           ++ placement w actualScale actualY from c |}).
    assert (Hfix : fixed_part w1 = fixed_part w) by reflexivity.
    rewrite (advance_fixed w1 w _ _ _ Hfix).
    rewrite (placements_fixed w1 w _ _ _ _ _ Hfix).
    rewrite placements_cons, app_assoc. reflexivity.
Qed.

(** What [drawText] runs its loop with. *)
Lemma drawText_unfold (w : World) text x y options :
  exists width : Q,
    vec_x (eval (measureText text options) w) = Fin width
    /\ drawText text x y options w
       = (tt,
          exec
            (drawCharacters options
               ((options ?. opt_scale ?? 1)
                * (cfg_scale (config (this w)) ?? 1))
               (originY options y
                  (vec_y (eval (measureText text options) w)))
               (code_points text)
               (Fin (originX options x width)))
            w).
Proof.
  pose proof (measureText_eval w text options) as Hsize.
  eexists. split; [rewrite Hsize; reflexivity|].
  unfold drawText, bind.
  rewrite (read_only_measureText text options w).
  unfold this_config. rewrite Hsize. cbn [vec_x vec_y].
  unfold exec, originX, originY.
  destruct (options ?. align) as [[| |]|];
    match goal with
    | |- (let (_, _) := ?run in _) = (_, snd ?run') =>
        change run with run'; destruct run' as [cursor w']; reflexivity
    end.
Qed.


(** ** Colour and layout *)

Lemma In_Map_get {V : Type} (m : JSMap V) (k : jsstring) (v : V) :
  Map_get m k = Some v -> In (k, v) m.
Proof.
  induction m as [|[k' v'] m IH]; simpl; [discriminate|].
  destruct (decide (k' = k)) as [->|Hne].
  - intros H. inversion H. auto.
  - auto.
Qed.

Lemma In_Map_set {V : Type} (m : JSMap V) (k : jsstring) (v : V) e :
  In e (Map_set m k v) -> In e m \/ e = (k, v).
Proof.
  induction m as [|[k' v'] m IH]; simpl.
  - intros [<-|[]]. auto.
  - destruct (decide (k' = k)); simpl.
    + intros [<-|H]; auto.
    + intros [<-|H]; auto. destruct (IH H); auto.
Qed.

Lemma In_Map_delete {V : Type} (m : JSMap V) (k : jsstring) e :
  In e (Map_delete m k) -> In e m.
Proof.
  induction m as [|[k' v'] m IH]; simpl; [tauto|].
  destruct (decide (k' = k)); simpl; [auto|].
  intros [<-|H]; auto.
Qed.

Lemma In_after_miss (cache : JSMap HTMLCanvasElement) key made e :
  In e (after_miss cache key made) -> In e cache \/ e = (key, made).
Proof.
  unfold after_miss. intros H. apply In_Map_set in H.
  destruct H as [H|H]; [left | right; exact H].
  destruct (MAX_COLOR_CACHE_SIZE <=? Map_size cache)%nat; [|exact H].
  destruct (Map_first_key cache); [|exact H].
  apply In_Map_delete in H. exact H.
Qed.

Lemma recolorings_app (a b : list Call) :
  recolorings (a ++ b) = (recolorings a + recolorings b)%nat.
Proof.
  induction a as [|[| ] a IH]; simpl; [reflexivity | exact IH |].
  rewrite IH. reflexivity.
Qed.

(** The tile the cache hands out for a character has the size of the
    character's tile, cached before or made now. *)
Lemma coloredTexture_sized (w : World) character tile options color :
  is_code_point character ->
  cache_sized w ->
  textures (this w) !! character = Some tile ->
  exists image w' before,
    coloredTexture character tile options color w = (image, w')
    /\ fixed_part w' = fixed_part w
    /\ cache_sized w'
    /\ tex_width image = tex_width tile
    /\ tex_height image = tex_height tile
    /\ calls w' = calls w ++ before
    /\ omap geometry before = []
    /\ (recolorings before <= 1)%nat.
Proof.
  intros Hcp Hsized Htile.
  destruct (Map_get (colorCache (this w))
              (getCacheKey character color (getColoringMode options)))
    as [cached|] eqn:Hget.
  - exists cached, w, [].
    rewrite (coloredTexture_hit w _ _ _ _ cached Hget).
    destruct (Hsized _ _ (In_Map_get _ _ _ Hget) character color
                (getColoringMode options) tile Hcp eq_refl Htile)
      as [Hw Hh].
    rewrite app_nil_r.
    split; [reflexivity|]. split; [reflexivity|]. split; [exact Hsized|].
    repeat split; auto.
  - pose proof (coloredTexture_miss w character tile options color Hget)
      as Hrun. cbv zeta in Hrun.
    eexists. eexists.
    exists [CreateColoredTexture tile color (getColoringMode options)
              (coloringFunction options)].
    split; [exact Hrun|].
    split; [reflexivity|]. split; [|repeat split; auto].
    intros key cached Hin character' color' mode' tile' Hcp' Hkey Htile'.
    cbn [this colorCache textures] in Hin, Htile'.
    apply In_after_miss in Hin. destruct Hin as [Hin|Hin].
    + apply (Hsized key cached Hin character' color' mode' tile' Hcp' Hkey
               Htile').
    + inversion Hin as [[Hk Hv]]. clear Hin. rewrite Hkey in Hk.
      apply getCacheKey_inj in Hk; auto.
      destruct Hk as (Hsame & _ & _). subst character'.
      rewrite Htile in Htile'. inversion Htile'. subst tile'.
      split; reflexivity.
Qed.

(** One turn of the loop, colour or no colour. *)
Lemma drawCharacter_sized (w : World) options actualScale actualY from
    character :
  is_code_point character ->
  cache_sized w ->
  exists w' new,
    drawCharacter options actualScale actualY (Fin from) character w
    = (Fin (from + eval (measureCharacterWidth character options) w), w')
    /\ fixed_part w' = fixed_part w
    /\ cache_sized w'
    /\ calls w' = calls w ++ new
    /\ omap geometry new
       = omap geometry (placement w actualScale actualY from character)
    /\ (recolorings new
        <= List.length (placement w actualScale actualY from character))%nat.
Proof.
  intros Hcp Hsized.
  destruct (truthy_string (options ?. color)) eqn:Hcolor.
  2:{ eexists. eexists. split; [apply drawCharacter_plain, Hcolor|].
      split; [reflexivity|]. split; [exact Hsized|].
      split; [reflexivity|]. split; [reflexivity|].
      unfold placement. destruct (textures (this w) !! character);
        simpl; lia. }
  destruct options as [opts|]; [|discriminate Hcolor].
  simpl in Hcolor.
  destruct (color opts) as [[|u s]|] eqn:Hc; try discriminate Hcolor.
  unfold drawCharacter, bind, placement.
  rewrite (read_only_measureCharacterWidth character (Some opts) w).
  unfold this_textures, this_config.
  destruct (textures (this w) !! character) as [tile|] eqn:Htile.
  - rewrite Hc.
    destruct (coloredTexture_sized w character tile opts (u :: s) Hcp Hsized
                Htile)
      as (image & w1 & before & Hrun & Hfix & Hsized1 & Hw & Hh & Hcalls
          & Hgeo & Hcount).
    rewrite Hrun. unfold emit, ret. cbn [fst snd].
    eexists. exists (before ++ [glyph w actualScale actualY from character
                                  tile image]).
    split.
    { rewrite Hw, Hh, Hcalls. reflexivity. }
    split; [exact Hfix|]. split; [exact Hsized1|].
    split; [cbn [calls]; rewrite <- app_assoc; reflexivity|]. split.
    + rewrite omap_app, Hgeo. reflexivity.
    + rewrite recolorings_app. simpl. lia.
  - exists w, []. rewrite app_nil_r.
    split; [reflexivity|]. split; [reflexivity|]. split; [exact Hsized|].
    repeat split; auto.
Qed.

Lemma drawCharacters_sized (w : World) options actualScale actualY items :
  Forall is_code_point items ->
  forall from,
    cache_sized w ->
    exists w' new,
      drawCharacters options actualScale actualY items (Fin from) w
      = (Fin (advance w options items from), w')
      /\ fixed_part w' = fixed_part w
      /\ cache_sized w'
      /\ calls w' = calls w ++ new
      /\ omap geometry new
         = omap geometry
             (placements w options actualScale actualY from items)
      /\ (recolorings new
          <= List.length
               (placements w options actualScale actualY from items))%nat.
Proof.
  intros Hitems. revert w.
  induction Hitems as [|c items Hc _ IH]; intros w from Hsized.
  - exists w, []. rewrite placements_nil, app_nil_r.
    split; [reflexivity|]. split; [reflexivity|]. split; [exact Hsized|].
    repeat split; auto.
  - destruct (drawCharacter_sized w options actualScale actualY from c Hc
                Hsized)
      as (w1 & new1 & Hrun1 & Hfix1 & Hsized1 & Hcalls1 & Hgeo1 & Hcount1).
    destruct (IH w1 (from + eval (measureCharacterWidth c options) w) Hsized1)
      as (w2 & new2 & Hrun2 & Hfix2 & Hsized2 & Hcalls2 & Hgeo2 & Hcount2).
    exists w2, (new1 ++ new2).
    rewrite (advance_fixed w1 w _ _ _ Hfix1) in Hrun2.
    rewrite (placements_fixed w1 w _ _ _ _ _ Hfix1) in Hgeo2, Hcount2.
    split.
    { unfold drawCharacters in *. simpl. unfold bind at 1.
      rewrite Hrun1. exact Hrun2. }
    split; [rewrite Hfix2; exact Hfix1|]. split; [exact Hsized2|].
    split; [rewrite Hcalls2, Hcalls1, app_assoc; reflexivity|].
    rewrite placements_cons. split.
    + rewrite !omap_app, Hgeo1, Hgeo2. reflexivity.
    + rewrite recolorings_app, length_app. lia.
Qed.

Lemma cache_sized_fixed (w1 w2 : World) :
  this w1 = this w2 -> cache_sized w1 -> cache_sized w2.
Proof. unfold cache_sized. intros <-. auto. Qed.

Lemma in_use_cache_sized (w : World) : in_use w -> cache_sized w.
Proof.
  intros (atlas & cfg & Hsteps). revert w Hsteps. apply rtc_ind_r.
  - intros key cached [].
  - intros w1 w2 _ Hstep IH. destruct Hstep as [w1 text options|w1 text x y options].
    + unfold exec. rewrite (read_only_measureText text options w1). exact IH.
    + destruct (drawText_unfold w1 text x y options) as (width & _ & Hrun).
      destruct (drawCharacters_sized w1 options
                  ((options ?. opt_scale ?? 1)
                   * (cfg_scale (config (this w1)) ?? 1))
                  (originY options y
                     (vec_y (eval (measureText text options) w1)))
                  (code_points text) (code_points_are_code_points text)
                  (originX options x width) IH)
        as (w' & new & Hloop & _ & Hsized & _).
      unfold exec at 1. rewrite Hrun. cbn [snd].
      unfold exec. rewrite Hloop. exact Hsized.
Qed.


(** ** Drawing, as a whole *)

(** X1. Without a colour, [drawText] leaves the instance alone and adds
    to the log exactly the draw calls of the layout: for each character
    of the text that has a tile, in the order of the text, the tile at
    the horizontal origin moved on by the widths of the characters
    before it, less the character's offset times the scale, in the size
    of the tile times the scale.  The two revisions of [drawText] do
    the same. *)
Theorem drawText_layout :
  forall (w : World) (text : jsstring) (x y : Q)
         (options : option ImageFontRenderingOptions),
    truthy_string (options ?. color) = false ->
    exists width : Q,
      vec_x (eval (measureText text options) w) = Fin width
      /\ exec (drawText text x y options) w
         = {| this := this w;
              calls :=
                calls w
                ++ placements w options
                     ((options ?. opt_scale ?? 1)
                      * (cfg_scale (config (this w)) ?? 1))
                     (originY options y
                        (vec_y (eval (measureText text options) w)))
                     (originX options x width)
                     (code_points text) |}
      /\ IndexTs.drawText text x y options w = drawText text x y options w.
Proof.
  intros w text x y options Hfalsy.
  destruct (drawText_unfold w text x y options) as (width & Hwidth & Hrun).
  exists width. split; [exact Hwidth|]. split.
  - unfold exec at 1. rewrite Hrun. cbn [snd].
    unfold exec. rewrite drawCharacters_plain by exact Hfalsy. reflexivity.
  - symmetry. apply drawText_without_color, Hfalsy.
Qed.

(** X2. With any options, colour or not, on an instance in use:
    [drawText] adds draw calls with the very rectangles of the layout
    without colour, so that recolouring changes what is drawn and never
    where; it draws once for each character that has a tile, and runs
    the recolouring routine at most once for each of them; it changes
    neither the atlas nor the configuration. *)
Theorem drawText_color_keeps_layout :
  forall (w : World) (text : jsstring) (x y : Q)
         (options : option ImageFontRenderingOptions),
    in_use w ->
    exists (width : Q) (new : list Call),
      vec_x (eval (measureText text options) w) = Fin width
      /\ calls (exec (drawText text x y options) w) = calls w ++ new
      /\ omap geometry new
         = omap geometry
             (placements w options
                ((options ?. opt_scale ?? 1)
                 * (cfg_scale (config (this w)) ?? 1))
                (originY options y
                   (vec_y (eval (measureText text options) w)))
                (originX options x width)
                (code_points text))
      /\ List.length (omap geometry new)
         = List.length
             (filter
                (fun character => is_Some (textures (this w) !! character))
                (code_points text))
      /\ (recolorings new
          <= List.length
               (filter
                  (fun character => is_Some (textures (this w) !! character))
                  (code_points text)))%nat.
Proof.
  intros w text x y options Huse.
  destruct (drawText_unfold w text x y options) as (width & Hwidth & Hrun).
  destruct (drawCharacters_sized w options
              ((options ?. opt_scale ?? 1)
               * (cfg_scale (config (this w)) ?? 1))
              (originY options y (vec_y (eval (measureText text options) w)))
              (code_points text) (code_points_are_code_points text)
              (originX options x width) (in_use_cache_sized w Huse))
    as (w' & new & Hloop & _ & _ & Hcalls & Hgeo & Hcount).
  exists width, new. split; [exact Hwidth|].
  split.
  { unfold exec at 1. rewrite Hrun. cbn [snd]. unfold exec.
    rewrite Hloop. exact Hcalls. }
  split; [exact Hgeo|].
  rewrite length_placements in Hcount. split; [|exact Hcount].
  rewrite Hgeo, length_geometry_placements. apply length_placements.
Qed.


(** X4. A surrogate pair is drawn as one character, looked up under
    the two code units together, and measured as two, each looked up
    on its own. *)
Theorem surrogate_pair_measured_by_halves :
  forall (w : World) (high low : N)
         (options : option ImageFontRenderingOptions)
         (actualScale : Q) (actualY : number) (from : Q),
    is_high_surrogate high = true ->
    is_low_surrogate low = true ->
    eval
      (drawCharacters options actualScale actualY
         (code_points [high; low]) (Fin from)) w
    = Fin (from + eval (measureCharacterWidth [high; low] options) w)
    /\ vec_x (eval (measureText [high; low] options) w)
       = Fin
           (0 + eval (measureCharacterWidth [high] options) w
            + eval
                (measureCharacterWidth [low]
                   (Some (only_scale (options ?. opt_scale)))) w).
Proof.
  intros w high low options actualScale actualY from Hhigh Hlow. split.
  - rewrite drawCharacters_cursor, code_points_cons, Hhigh, Hlow.
    reflexivity.
  - rewrite measureText_eval. reflexivity.
Qed.

(** X6. A second request for the same character, colour and mode gets
    the canvas of the first and changes nothing, whatever tile and
    whatever colouring function it comes with: the function is no part
    of the key. *)
Theorem coloredTexture_cached_again :
  forall (w : World) (character color : jsstring)
         (tile1 tile2 : HTMLCanvasElement)
         (options1 options2 : ImageFontRenderingOptions),
    getColoringMode options1 = getColoringMode options2 ->
    coloredTexture character tile2 options2 color
      (exec (coloredTexture character tile1 options1 color) w)
    = (eval (coloredTexture character tile1 options1 color) w,
       exec (coloredTexture character tile1 options1 color) w).
Proof.
  intros w character color tile1 tile2 options1 options2 Hmode.
  unfold eval, exec.
  destruct (Map_get (colorCache (this w))
              (getCacheKey character color (getColoringMode options1)))
    as [cached|] eqn:Hget.
  - rewrite (coloredTexture_hit w _ tile1 _ _ cached Hget). cbn [fst snd].
    apply coloredTexture_hit. rewrite <- Hmode. exact Hget.
  - rewrite (coloredTexture_miss w character tile1 options1 color Hget).
    cbn [fst snd]. apply coloredTexture_hit. cbn [this colorCache].
    rewrite <- Hmode. unfold after_miss. apply Map_get_set.
Qed.


(** ** Scale *)






(** ** The defaults of the constructor *)

Lemma steps_fixed_part (w w' : World) :
  rtc step w w' -> fixed_part w' = fixed_part w.
Proof.
  induction 1 as [|w1 w2 w3 Hstep _ IH]; [reflexivity|].
  rewrite IH. apply step_fixed_part, Hstep.
Qed.

(** X8. The defaults the constructor merges into the configuration
    change no result: at any time in the life of an instance built from
    an atlas and a configuration, the width, the height and the offset
    of a character are what the precedence chains give on the
    configuration as it was handed over. *)
Theorem constructor_defaults_transparent :
  forall (atlas : gmap jsstring HTMLCanvasElement) (cfg : ImageFontConfig)
         (w : World) (character : jsstring)
         (options : option ImageFontRenderingOptions),
    rtc step (fresh atlas cfg) w ->
    eval (measureCharacterWidth character options) w
    = (if truthy_bool (options ?. monospace)
       then match options ?. kerning with
            | Some k => k
            | None =>
                defaultCharacterConfig cfg ?. char_width
                  ?? atlas !! character ?.. tex_width ?? 0
            end
       else (characters cfg !! character ?. char_width
               ?? defaultCharacterConfig cfg ?. char_width
               ?? atlas !! character ?.. tex_width ?? 0)
            * (options ?. kerning ?? 1))
      * ((options ?. opt_scale ?? 1) * (cfg_scale cfg ?? 1))
    /\ eval (measureCharacterHeight character options) w
       = (characters cfg !! character ?. char_height
            ?? defaultCharacterConfig cfg ?. char_height ?? 0)
         * ((options ?. opt_scale ?? 1) * (cfg_scale cfg ?? 1))
    /\ resolveOffset w character
       = vec2_add (cfg_offset cfg ?? vec2_zero)
           (characters cfg !! character ?. char_offset
              ?? defaultCharacterConfig cfg ?. char_offset ?? vec2_zero).
Proof.
  intros atlas cfg w character options Hsteps.
  apply steps_fixed_part in Hsteps. unfold fixed_part in Hsteps.
  inversion Hsteps as [[Htex Hcfg]].
  unfold measureCharacterWidth, measureCharacterHeight, resolveOffset, eval,
    bind, this_config, this_textures, ret.
  cbn [fst]. rewrite Htex, Hcfg.
  cbn [fresh this constructor textures config cfg_offset cfg_scale
       defaultCharacterConfig characters DEFAULT_CONFIG chain].
  rewrite (right_id_L ∅ (∪) (characters cfg)).
  destruct cfg as [off sc [[doff dw dh]|] chars];
    cbn [cfg_offset cfg_scale defaultCharacterConfig characters chain spread
         char_offset char_width char_height];
    destruct off, sc; try destruct doff; try destruct dw; try destruct dh;
    repeat split; reflexivity.
Qed.


(* ------------------------------------------------------------------ *)
(** * Properties of the type guards and of the content processor *)

Lemma lookup_put (name name' : jsstring) (value : option JSValue)
    (props : gmap jsstring JSValue) :
  put name value props !! name'
  = if decide (name = name')
    then match value with Some v => Some v | None => props !! name' end
    else props !! name'.
Proof.
  unfold put. destruct value as [v|].
  - rewrite lookup_insert. reflexivity.
  - destruct (decide (name = name')); reflexivity.
Qed.

(** Reads of a serialised object, name by name. *)
Ltac read_property :=
  repeat
    (rewrite lookup_put;
     match goal with
     | |- context [decide (?a = ?b)] =>
         let H := fresh in
         destruct (decide (a = b)) as [H|H];
         [try (vm_compute in H; discriminate H)
         | try (exfalso; apply H; reflexivity)]
     end);
  try rewrite lookup_empty.

Lemma is_vec2_encode (v : vec2 Q) : is_vec2 (encode_vec2 v) = true.
Proof. reflexivity. Qed.

Lemma vec2_of_encode (v : vec2 Q) : vec2_of (Some (encode_vec2 v)) = Some v.
Proof. destruct v. reflexivity. Qed.

Lemma property_encode_character_offset c :
  encode_character c !! lit "offset" = encode_vec2 <$> char_offset c.
Proof.
  unfold encode_character. read_property.
  destruct (char_offset c); reflexivity.
Qed.

Lemma property_encode_character_width c :
  encode_character c !! lit "width" = VNumber <$> char_width c.
Proof.
  unfold encode_character. read_property.
  destruct (char_width c); reflexivity.
Qed.

Lemma property_encode_character_height c :
  encode_character c !! lit "height" = VNumber <$> char_height c.
Proof.
  unfold encode_character. read_property.
  destruct (char_height c); reflexivity.
Qed.

Lemma property_encode_character_position c :
  encode_character c !! lit "textureAtlasPosition" = None.
Proof. unfold encode_character. read_property. reflexivity. Qed.


Lemma guard_encode_character (c : ImageFontCharacterConfig) :
  isImageFontCharacterConfigData (VObject (encode_character c)) false = true.
Proof.
  unfold isImageFontCharacterConfigData, optional_vec2, optional_number,
    property.
  rewrite property_encode_character_offset, property_encode_character_width,
    property_encode_character_height.
  destruct (char_offset c), (char_width c), (char_height c); reflexivity.
Qed.

Lemma property_encode_character_data (d : ImageFontCharacterConfigData)
    (name : jsstring) :
  name <> lit "textureAtlasPosition" ->
  property (encode_character_data d) name
  = encode_character (char_config d) !! name.
Proof.
  intros Hne. unfold encode_character_data, property. rewrite lookup_put.
  destruct (decide (lit "textureAtlasPosition" = name)); congruence.
Qed.

Lemma position_encode_character_data (d : ImageFontCharacterConfigData) :
  property (encode_character_data d) (lit "textureAtlasPosition")
  = Some (encode_vec2 (textureAtlasPosition d)).
Proof.
  unfold encode_character_data, property. rewrite lookup_put.
  destruct (decide (lit "textureAtlasPosition" = lit "textureAtlasPosition"));
    congruence.
Qed.

Lemma guard_encode_character_data (d : ImageFontCharacterConfigData) :
  isImageFontCharacterConfigData (encode_character_data d) true = true.
Proof.
  unfold isImageFontCharacterConfigData, required_vec2, optional_vec2,
    optional_number.
  rewrite position_encode_character_data.
  rewrite !property_encode_character_data by (intros H; discriminate H).
  rewrite property_encode_character_offset, property_encode_character_width,
    property_encode_character_height.
  destruct (char_offset (char_config d)), (char_width (char_config d)),
    (char_height (char_config d)); reflexivity.
Qed.

Lemma view_encode_character (c : ImageFontCharacterConfig) :
  view_character (VObject (encode_character c)) = c.
Proof.
  unfold view_character, property.
  rewrite property_encode_character_offset, property_encode_character_width,
    property_encode_character_height.
  destruct c as [[[ox oy]|] [wd|] [ht|]]; reflexivity.
Qed.

Lemma view_encode_character_data (d : ImageFontCharacterConfigData) :
  view_character (encode_character_data d) = char_config d.
Proof.
  unfold view_character.
  rewrite !property_encode_character_data by (intros H; discriminate H).
  exact (view_encode_character (char_config d)).
Qed.

(** The properties of a serialised configuration. *)
Lemma property_encode (data : ImageFontConfigData) :
  property (encode data) (lit "textureAtlasSize")
  = Some (encode_vec2 (textureAtlasSize data))
  /\ property (encode data) (lit "offset") = encode_vec2 <$> data_offset data
  /\ property (encode data) (lit "scale") = VNumber <$> data_scale data
  /\ property (encode data) (lit "defaultCharacterConfig")
     = (fun c => VObject (encode_character c))
         <$> data_defaultCharacterConfig data
  /\ property (encode data) (lit "characters")
     = Some (VObject (encode_character_data <$> data_characters data)).
Proof.
  unfold encode, property. repeat split; read_property.
  - reflexivity.
  - destruct (data_offset data); reflexivity.
  - destruct (data_scale data); reflexivity.
  - destruct (data_defaultCharacterConfig data); reflexivity.
  - reflexivity.
Qed.

Lemma entries_guard (m : gmap jsstring ImageFontCharacterConfigData) :
  forallb
    (fun entry =>
       (List.length (fst entry) =? 1)%nat
       && isImageFontCharacterConfigData (snd entry) true)
    (map_to_list (encode_character_data <$> m)) = true
  <-> map_Forall (fun k _ => List.length k = 1%nat) m.
Proof.
  rewrite forallb_forall. split.
  - intros H k d Hk.
    specialize (H (k, encode_character_data d)).
    apply andb_true_iff in H; [apply Nat.eqb_eq, H|].
    apply list_elem_of_In, elem_of_map_to_list.
    rewrite lookup_fmap, Hk. reflexivity.
  - intros H [k v] Hin.
    apply list_elem_of_In, elem_of_map_to_list in Hin.
    rewrite lookup_fmap in Hin.
    destruct (m !! k) as [d|] eqn:Hk; [|discriminate Hin].
    inversion Hin; subst v. cbn [fst snd].
    rewrite (H k d Hk), guard_encode_character_data. reflexivity.
Qed.

Lemma isImageFontConfigData_encode_iff :
  forall data : ImageFontConfigData,
    (isImageFontConfigData (encode data) = true
     <-> map_Forall (fun k _ => List.length k = 1%nat) (data_characters data))
    /\ view_config (encode data) = config_of data.
Proof.
  intros data.
  destruct (property_encode data) as (Hsize & Hoff & Hscale & Hdef & Hchars).
  split.
  - unfold isImageFontConfigData, required_vec2, optional_vec2,
      optional_number.
    rewrite Hsize, Hoff, Hscale, Hdef, Hchars.
    rewrite <- entries_guard.
    assert (Hrest :
      is_object (encode data) && is_vec2 (encode_vec2 (textureAtlasSize data))
      && match encode_vec2 <$> data_offset data with
         | Some p => is_vec2 p
         | None => true
         end
      && match VNumber <$> data_scale data with
         | Some (VNumber _) => true
         | Some _ => false
         | None => true
         end
      && match (fun c => VObject (encode_character c))
                 <$> data_defaultCharacterConfig data with
         | Some d => is_object d && isImageFontCharacterConfigData d false
         | None => true
         end = true).
    { destruct (data_offset data), (data_scale data),
        (data_defaultCharacterConfig data) as [c|];
        cbn [fmap option_fmap option_map]; try rewrite guard_encode_character;
        reflexivity. }
    rewrite Hrest. cbn [andb is_object Object_entries]. tauto.
  - unfold view_config, config_of.
    rewrite Hoff, Hscale, Hdef, Hchars.
    f_equal.
    + destruct (data_offset data) as [[ox oy]|]; reflexivity.
    + destruct (data_scale data); reflexivity.
    + destruct (data_defaultCharacterConfig data) as [c|]; [|reflexivity].
      cbn [fmap option_fmap option_map]. rewrite view_encode_character.
      reflexivity.
    + cbn [own_properties Object_entries].
      rewrite list_to_map_to_list, <- map_fmap_compose.
      apply map_fmap_ext. intros k d _. apply view_encode_character_data.
Qed.

(** X9. The guard accepts the serialisation of configuration data
    exactly when every character is named by a single code unit; the
    serialisation is then read back as the configuration it came
    from. *)
Theorem isImageFontConfigData_encode :
  forall data : ImageFontConfigData,
    (isImageFontConfigData (encode data) = true
     <-> map_Forall (fun k _ => List.length k = 1%nat) (data_characters data))
    /\ view_config (encode data) = config_of data.
Proof. exact isImageFontConfigData_encode_iff. Qed.


Lemma Object_fromEntries_acc {V : Type} (entries : list (jsstring * V))
    (m : gmap jsstring V) (k : jsstring) :
  is_Some
    (fold_left (fun m entry => <[fst entry := snd entry]> m) entries m !! k)
  <-> In k (map fst entries) \/ is_Some (m !! k).
Proof.
  revert m. induction entries as [|[k' v] entries IH]; intros m; simpl.
  - tauto.
  - rewrite IH. destruct (decide (k' = k)) as [->|Hne].
    + rewrite lookup_insert_eq. split; [auto|]. intros _. right. eauto.
    + rewrite lookup_insert_ne by exact Hne. tauto.
Qed.

Lemma Object_fromEntries_unique {V : Type} (entries : list (jsstring * V)) :
  NoDup (map fst entries) ->
  forall m : gmap jsstring V,
    (forall k, In k (map fst entries) -> m !! k = None) ->
    fold_left (fun m entry => <[fst entry := snd entry]> m) entries m
    = list_to_map entries ∪ m.
Proof.
  induction entries as [|[k v] entries IH]; intros Hnodup m Hfresh; simpl.
  - rewrite (left_id_L ∅ (∪)). reflexivity.
  - inversion Hnodup as [|? ? Hnotin Hrest]; subst.
    rewrite IH; [|exact Hrest|].
    + rewrite <- insert_union_l. symmetry. apply insert_union_r.
      apply not_elem_of_list_to_map_1. exact Hnotin.
    + intros k' Hk'. rewrite lookup_insert_ne; [apply Hfresh; simpl; auto|].
      intros ->. apply Hnotin, list_elem_of_In. exact Hk'.
Qed.

Lemma regions_encode (data : ImageFontConfigData) :
  regions (encode data) = textureAtlasPosition <$> data_characters data.
Proof.
  unfold regions.
  destruct (property_encode data) as (_ & _ & _ & _ & ->).
  cbn [Object_entries]. unfold Object_fromEntries.
  set (position := fun value : JSValue =>
         vec2_of (property value (lit "textureAtlasPosition")) ?? vec2_zero).
  change (map _ (map_to_list (encode_character_data <$> data_characters data)))
    with (prod_map id position
            <$> map_to_list (encode_character_data <$> data_characters data)).
  rewrite Object_fromEntries_unique.
  - rewrite (right_id_L ∅ (∪)), list_to_map_fmap, list_to_map_to_list.
    rewrite <- map_fmap_compose. apply map_fmap_ext. intros k d _.
    unfold position, compose. rewrite position_encode_character_data.
    rewrite vec2_of_encode. reflexivity.
  - match goal with
    | |- NoDup (map fst (prod_map id position <$> ?l)) =>
        replace (map fst (prod_map id position <$> l)) with (l.*1)
    end.
    + apply NoDup_fst_map_to_list.
    + generalize (map_to_list
                    (encode_character_data <$> data_characters data)).
      intros l. induction l as [|[k v] l IH]; [reflexivity|].
      cbn. f_equal. exact IH.
  - intros k _. apply lookup_empty.
Qed.

(** X10. Loading serialised configuration data.  The processor refuses
    the data with "Invalid image font config" when some character is
    not named by a single code unit, image or no image; else it fails
    with the name of the image when the content holds no such item or
    a falsy one; else it stores, under the name of the data, a font
    built by the constructor from the configuration in the data and
    from the atlas cut out of the image with one region for each
    character, at its tile position; every other item is left as it
    was. *)
Theorem imageFontContentProcessor_encoded :
  forall (textureAtlas :
            Content -> Q -> Q -> gmap jsstring (vec2 Q)
            -> gmap jsstring HTMLCanvasElement)
         (content : gmap jsstring ContentItem)
         (name type status imageName : jsstring)
         (data : ImageFontConfigData),
    imageFontContentProcessor textureAtlas content
      {| item_name := name; item_type := type;
         item_content := CValue (encode data); item_status := status |}
      imageName
    = if decide (map_Forall (fun k _ => List.length k = 1%nat)
                   (data_characters data))
      then
        match content !! imageName with
        | Some item =>
            if truthy_content (Some (item_content item))
            then
              inr
                (<[name :=
                     {| item_name := name;
                        item_type := lit "json";
                        item_content :=
                          CFont
                            (constructor
                               (textureAtlas (item_content item)
                                  (vec_x (textureAtlasSize data))
                                  (vec_y (textureAtlasSize data))
                                  (textureAtlasPosition
                                     <$> data_characters data))
                               (config_of data));
                        item_status := lit "processed" |}]> content)
            else inl (lit "Image '" ++ imageName ++ lit "' not found")
        | None => inl (lit "Image '" ++ imageName ++ lit "' not found")
        end
      else inl (lit "Invalid image font config").
Proof.
  intros textureAtlas content name type status imageName data.
  unfold imageFontContentProcessor. cbn [item_content item_name].
  destruct (isImageFontConfigData_encode_iff data) as [Haccept Hview].
  destruct (decide (map_Forall (fun k _ => List.length k = 1%nat)
                      (data_characters data))) as [Hkeys|Hkeys].
  - rewrite (proj2 Haccept Hkeys).
    destruct (content !! imageName) as [item|]; [|reflexivity].
    cbn [fmap option_fmap option_map].
    destruct (truthy_content (Some (item_content item))); [|reflexivity].
    rewrite Hview, regions_encode.
    destruct (property_encode data) as (-> & _).
    rewrite vec2_of_encode. reflexivity.
  - destruct (isImageFontConfigData (encode data)) eqn:Hguard; [|reflexivity].
    exfalso. apply Hkeys, Haccept. reflexivity.
Qed.


Lemma Object_fromEntries_In {V : Type} (entries : list (jsstring * V))
    (m : gmap jsstring V) (k : jsstring) (x : V) :
  fold_left (fun m entry => <[fst entry := snd entry]> m) entries m !! k
  = Some x ->
  In (k, x) entries \/ m !! k = Some x.
Proof.
  revert m. induction entries as [|[k' v] entries IH]; intros m; simpl.
  - auto.
  - intros H. apply IH in H. destruct H as [H|H]; [auto|].
    destruct (decide (k' = k)) as [->|Hne].
    + rewrite lookup_insert_eq in H. inversion H. auto.
    + rewrite lookup_insert_ne in H by exact Hne. auto.
Qed.

Lemma digits_inj (d1 d2 : Decimal.uint) : digits d1 = digits d2 -> d1 = d2.
Proof.
  revert d2. induction d1; intros [] H; simpl in H;
    try discriminate H; try reflexivity;
    inversion H as [H']; f_equal; auto.
Qed.

Lemma index_key_inj (i j : nat) : index_key i = index_key j -> i = j.
Proof.
  unfold index_key. intros H. apply digits_inj in H.
  rewrite <- (DecimalNat.Unsigned.of_to i), <- (DecimalNat.Unsigned.of_to j).
  rewrite H. reflexivity.
Qed.

Lemma imap_index_keys {A : Type} (items : list A) (from : nat) (k : jsstring) :
  In k (map fst (imap (fun i item => (index_key (from + i), item)) items)) ->
  exists i, k = index_key (from + i) /\ (i < List.length items)%nat.
Proof.
  revert from. induction items as [|item items IH]; intros from; simpl.
  - intros [].
  - intros [<-|Hin].
    + exists 0%nat. split; [reflexivity | lia].
    + rewrite (imap_ext _ (fun i item => (index_key (S from + i), item)))
        in Hin by (intros; simpl; do 2 f_equal; lia).
      destruct (IH (S from) Hin) as (i & -> & Hi).
      exists (S i). split; [f_equal; lia | lia].
Qed.

Lemma Object_entries_NoDup (value : JSValue) :
  NoDup (map fst (Object_entries value)).
Proof.
  destruct value as [| | | | |items|props]; try apply NoDup_nil_2.
  - cbn [Object_entries].
    change (fun i item => (index_key i, item))
      with (fun i (item : JSValue) => (index_key (0 + i), item)).
    generalize 0%nat. induction items as [|item items IH]; intros from.
    + apply NoDup_nil_2.
    + rewrite imap_cons. cbn [map fst]. apply NoDup_cons. split.
      * intros Hin. apply list_elem_of_In in Hin.
        rewrite (imap_ext _ (fun i item => (index_key (S from + i), item)))
          in Hin by (intros; simpl; do 2 f_equal; lia).
        apply imap_index_keys in Hin. destruct Hin as (i & Hkey & _).
        apply index_key_inj in Hkey. lia.
      * rewrite (imap_ext _ (fun i item => (index_key (S from + i), item)))
          by (intros; simpl; do 2 f_equal; lia).
        apply IH.
  - apply NoDup_fst_map_to_list.
Qed.

Lemma accepted_entries (value : JSValue) :
  isImageFontConfigData value = true ->
  exists cs,
    property value (lit "characters") = Some cs
    /\ forall k cv,
         In (k, cv) (Object_entries cs) ->
         List.length k = 1%nat
         /\ isImageFontCharacterConfigData cv true = true.
Proof.
  unfold isImageFontConfigData. intros H.
  apply andb_true_iff in H. destruct H as [_ H].
  destruct (property value (lit "characters")) as [cs|]; [|discriminate H].
  exists cs. split; [reflexivity|].
  apply andb_true_iff in H. destruct H as [_ H].
  rewrite forallb_forall in H. intros k cv Hin.
  specialize (H (k, cv) Hin). apply andb_true_iff in H.
  destruct H as [Hlen Hguard]. split; [apply Nat.eqb_eq, Hlen | exact Hguard].
Qed.

Lemma accepted_position (cv : JSValue) :
  isImageFontCharacterConfigData cv true = true ->
  exists position,
    vec2_of (property cv (lit "textureAtlasPosition")) = Some position.
Proof.
  unfold isImageFontCharacterConfigData, required_vec2. intros H.
  do 3 (apply andb_true_iff in H; destruct H as [H _]).
  apply andb_true_iff in H. destruct H as [_ H].
  destruct (property cv (lit "textureAtlasPosition")) as [p|];
    [|discriminate H].
  unfold is_vec2 in H.
  apply andb_true_iff in H. destruct H as [H Hy].
  apply andb_true_iff in H. destruct H as [_ Hx].
  unfold vec2_of, is_number, number_of in *.
  destruct (property p (lit "x")) as [[]|]; try discriminate Hx.
  destruct (property p (lit "y")) as [[]|]; try discriminate Hy.
  eauto.
Qed.

(** X11. In a font loaded from a configuration the guard accepts, only
    single code units have a configuration of their own, so a
    surrogate pair, one character to [drawText], has none; the atlas
    is asked for one region for each configured character and for no
    other, and each region is at the tile position written in the
    configuration. *)
Theorem accepted_characters :
  forall (value : JSValue) (atlas : gmap jsstring HTMLCanvasElement),
    isImageFontConfigData value = true ->
    (forall character,
        is_Some
          (characters (config (constructor atlas (view_config value)))
           !! character) ->
        List.length character = 1%nat)
    /\ (forall high low : N,
           characters (config (constructor atlas (view_config value)))
           !! [high; low] = None)
    /\ (forall character,
           is_Some (regions value !! character)
           <-> is_Some
                 (characters (config (constructor atlas (view_config value)))
                  !! character))
    /\ (forall character position,
           regions value !! character = Some position ->
           exists cv,
             own_properties (property value (lit "characters")) !! character
             = Some cv
             /\ vec2_of (property cv (lit "textureAtlasPosition"))
                = Some position).
Proof.
  intros value atlas Haccept.
  destruct (accepted_entries value Haccept) as (cs & Hcs & Hentries).
  assert (Hchars :
    characters (config (constructor atlas (view_config value)))
    = view_character <$> list_to_map (Object_entries cs)).
  { cbn [constructor config characters view_config DEFAULT_CONFIG].
    rewrite (right_id_L ∅ (∪)), Hcs. reflexivity. }
  assert (Hsingle : forall character,
    is_Some
      (characters (config (constructor atlas (view_config value)))
       !! character) ->
    List.length character = 1%nat).
  { intros c [cc Hc]. rewrite Hchars, lookup_fmap in Hc.
    destruct (list_to_map (Object_entries cs) !! c) as [cv|] eqn:Hcv;
      [|discriminate Hc].
    apply elem_of_list_to_map_2, list_elem_of_In in Hcv.
    apply (Hentries c cv Hcv). }
  split; [exact Hsingle|]. split.
  { intros high low.
    destruct (characters (config (constructor atlas (view_config value)))
              !! [high; low]) as [cc|] eqn:Hc; [|reflexivity].
    assert (Hlen : List.length [high; low] = 1%nat)
      by (apply Hsingle; rewrite Hc; eauto).
    discriminate Hlen. }
  split.
  { intros c. rewrite Hchars, lookup_fmap. unfold regions. rewrite Hcs.
    unfold Object_fromEntries. rewrite Object_fromEntries_acc.
    rewrite map_map. cbn [fst].
    rewrite fmap_is_Some, lookup_empty.
    split.
    - intros [Hin|[? Hno]]; [|discriminate Hno].
      destruct (list_to_map (Object_entries cs) !! c) eqn:Hcv; [eauto|].
      apply not_elem_of_list_to_map_2 in Hcv.
      exfalso. apply Hcv, list_elem_of_In. exact Hin.
    - intros [cv Hcv]. left.
      apply elem_of_list_to_map_2, list_elem_of_In in Hcv.
      apply in_map_iff. exists (c, cv). auto. }
  intros c position Hregion. unfold regions in Hregion.
  rewrite Hcs in Hregion. unfold Object_fromEntries in Hregion.
  apply Object_fromEntries_In in Hregion.
  destruct Hregion as [Hin|Hno]; [|rewrite lookup_empty in Hno; discriminate].
  apply in_map_iff in Hin. destruct Hin as ([k cv] & Heq & Hin).
  cbn [fst snd] in Heq. inversion Heq; subst k. clear Heq.
  destruct (Hentries c cv Hin) as [_ Hguard].
  destruct (accepted_position cv Hguard) as (p & Hp).
  exists cv. split; [|rewrite Hp; reflexivity].
  unfold own_properties. rewrite Hcs.
  apply elem_of_list_to_map_1; [apply Object_entries_NoDup|].
  apply list_elem_of_In. exact Hin.
Qed.


Lemma length_index_key (i : nat) :
  List.length (index_key i) = 1%nat <-> (i < 10)%nat.
Proof.
  split.
  - unfold index_key. intros H.
    rewrite <- (DecimalNat.Unsigned.of_to i).
    destruct (Nat.to_uint i) as [|d|d|d|d|d|d|d|d|d|d];
      try discriminate H;
      destruct d; try discriminate H; cbv; lia.
  - intros H. do 10 (destruct i as [|i]; [reflexivity|]). lia.
Qed.

Lemma forallb_imap_entries (f : jsstring * JSValue -> bool)
    (items : list JSValue) (from : nat) :
  forallb f (imap (fun i item => (index_key (from + i), item)) items) = true
  <-> forall i item,
        items !! i = Some item -> f (index_key (from + i), item) = true.
Proof.
  revert from. induction items as [|x items IH]; intros from.
  - simpl. split; [intros _ i item H; discriminate H | reflexivity].
  - rewrite imap_cons. cbn [forallb]. rewrite andb_true_iff.
    rewrite (imap_ext _ (fun i item => (index_key (S from + i), item)))
      by (intros; simpl; do 2 f_equal; lia).
    rewrite IH. split.
    + intros [H0 Hrest] [|i] item Hi.
      * inversion Hi; subst. exact H0.
      * replace (from + S i)%nat with (S from + i)%nat by lia.
        apply Hrest. exact Hi.
    + intros H. split.
      * apply (H 0%nat x). reflexivity.
      * intros i item Hi.
        replace (S from + i)%nat with (from + S i)%nat by lia.
        apply (H (S i) item). exact Hi.
Qed.

(** The guard on an object, as the test of its [characters] and the
    test of the rest. *)
Lemma isImageFontConfigData_characters (props : gmap jsstring JSValue)
    (cs : JSValue) :
  isImageFontConfigData (VObject (<[lit "characters" := cs]> props))
  = isImageFontConfigData (VObject (<[lit "characters" := VObject ∅]> props))
    && (is_object cs
        && forallb
             (fun entry =>
                (List.length (fst entry) =? 1)%nat
                && isImageFontCharacterConfigData (snd entry) true)
             (Object_entries cs)).
Proof.
  unfold isImageFontConfigData, required_vec2, optional_vec2, optional_number,
    property.
  rewrite !lookup_insert_eq.
  rewrite !lookup_insert_ne by (intros H; vm_compute in H; discriminate H).
  cbn [is_object Object_entries]. rewrite map_to_list_empty.
  cbn [forallb]. rewrite !andb_true_r. reflexivity.
Qed.

(** X12. When [characters] is an array, its items are taken for the
    characters named "0", "1", and so on: a configuration that is
    acceptable but for its characters is accepted with an array of
    characters exactly when the array has at most ten items and each
    is an acceptable character. *)
Theorem characters_as_array :
  forall (props : gmap jsstring JSValue) (items : list JSValue),
    isImageFontConfigData (VObject (<[lit "characters" := VObject ∅]> props))
    = true ->
    (isImageFontConfigData (VObject (<[lit "characters" := VArray items]> props))
     = true
     <-> (List.length items <= 10)%nat
         /\ Forall
              (fun item => isImageFontCharacterConfigData item true = true)
              items).
Proof.
  intros props items Hrest.
  rewrite isImageFontConfigData_characters, Hrest.
  cbn [andb is_object Object_entries].
  change (fun i item => (index_key i, item))
    with (fun i (item : JSValue) => (index_key (0 + i), item)).
  rewrite forallb_imap_entries. cbn [fst snd plus]. split.
  - intros H. split.
    + destruct (Nat.le_gt_cases (List.length items) 10) as [Hle|Hgt];
        [exact Hle|].
      destruct (lookup_lt_is_Some_2 items 10 Hgt) as [item Hitem].
      specialize (H 10%nat item Hitem).
      apply andb_true_iff in H. destruct H as [H _].
      apply Nat.eqb_eq, length_index_key in H. lia.
    + apply Forall_lookup. intros i item Hitem.
      specialize (H i item Hitem). apply andb_true_iff in H. apply H.
  - intros [Hlen Hall] i item Hitem.
    apply andb_true_iff. split.
    + apply Nat.eqb_eq, length_index_key.
      apply lookup_lt_Some in Hitem. lia.
    + apply (proj1 (Forall_lookup _ _) Hall i item Hitem).
Qed.


(* ------------------------------------------------------------------ *)
(** * The further properties at work on the samples *)

Lemma drawText_layout_witness :
  exists width : Q,
    vec_x (eval (measureText (lit "AXB") (Some (with_anchor Align.right
                                                  BaseLine.top)))
             sample_world) = Fin width
    /\ exec (drawText (lit "AXB") 100 50
               (Some (with_anchor Align.right BaseLine.top))) sample_world
       = {| this := this sample_world;
            calls :=
              calls sample_world
              ++ placements sample_world
                   (Some (with_anchor Align.right BaseLine.top)) (1 * 1)
                   (Fin 50) (100 + - width) (code_points (lit "AXB")) |}
    /\ IndexTs.drawText (lit "AXB") 100 50
         (Some (with_anchor Align.right BaseLine.top)) sample_world
       = drawText (lit "AXB") 100 50
           (Some (with_anchor Align.right BaseLine.top)) sample_world.
Proof.
  apply (drawText_layout sample_world (lit "AXB") 100 50
           (Some (with_anchor Align.right BaseLine.top))).
  reflexivity.
Defined.

Lemma drawText_color_keeps_layout_witness :
  exists (width : Q) (new : list Call),
    vec_x (eval (measureText (lit "AXB") (Some (with_color (lit "red"))))
             sample_world) = Fin width
    /\ calls (exec (drawText (lit "AXB") 0 0 (Some (with_color (lit "red"))))
                sample_world)
       = calls sample_world ++ new
    /\ List.length (omap geometry new) = 2%nat
    /\ (recolorings new <= 2)%nat.
Proof.
  assert (Huse : in_use sample_world).
  { exists sample_textures, sample_config. apply rtc_refl. }
  destruct (drawText_color_keeps_layout sample_world (lit "AXB") 0 0
              (Some (with_color (lit "red"))) Huse)
    as (width & new & Hwidth & Hcalls & _ & Hdraws & Hcount).
  exists width, new. repeat split; assumption.
Defined.


Lemma surrogate_pair_measured_by_halves_witness :
  eval (drawCharacters None 1 (Fin 0) (code_points [55357%N; 56832%N])
          (Fin 0)) sample_world
  = Fin (0 + eval (measureCharacterWidth [55357%N; 56832%N] None)
                  sample_world)
  /\ vec_x (eval (measureText [55357%N; 56832%N] None) sample_world)
     = Fin (0 + eval (measureCharacterWidth [55357%N] None) sample_world
            + eval (measureCharacterWidth [56832%N]
                      (Some (only_scale None))) sample_world).
Proof.
  apply (surrogate_pair_measured_by_halves sample_world 55357%N 56832%N None
           1 (Fin 0) 0); reflexivity.
Defined.

Lemma getCacheKey_injective_witness :
  getCacheKey (lit "A") (lit "red") multiply
  = getCacheKey (lit "A") (lit "red") multiply
  /\ lit "A" = lit "A" /\ lit "red" = lit "red" /\ multiply = multiply.
Proof.
  split; [reflexivity|].
  apply (getCacheKey_injective (lit "A") (lit "A") (lit "red") (lit "red")
           multiply multiply).
  - left. exists 65%N. reflexivity.
  - left. exists 65%N. reflexivity.
  - reflexivity.
Defined.

Lemma coloredTexture_cached_again_witness :
  getColoringMode (with_custom 1) = getColoringMode (with_custom 2)
  /\ coloredTexture (lit "A") (sample_tile 0) (with_custom 2) (lit "red")
       (exec (coloredTexture (lit "A") (sample_tile 0) (with_custom 1)
                (lit "red")) sample_world)
     = (eval (coloredTexture (lit "A") (sample_tile 0) (with_custom 1)
                (lit "red")) sample_world,
        exec (coloredTexture (lit "A") (sample_tile 0) (with_custom 1)
                (lit "red")) sample_world).
Proof.
  split; [reflexivity|].
  apply (coloredTexture_cached_again sample_world (lit "A") (lit "red")
           (sample_tile 0) (sample_tile 0) (with_custom 1) (with_custom 2)).
  reflexivity.
Defined.


Lemma constructor_defaults_transparent_witness :
  eval (measureCharacterHeight (lit "A") None)
       (exec (drawText (lit "AB") 0 0 (Some (with_color (lit "red"))))
          sample_world)
  = 48 * (1 * 1)
  /\ resolveOffset
       (exec (drawText (lit "AB") 0 0 (Some (with_color (lit "red"))))
          sample_world) (lit "A")
     = vec2_add vec2_zero (Vec2 14 8).
Proof.
  apply (proj2 (constructor_defaults_transparent sample_textures sample_config
                  (exec (drawText (lit "AB") 0 0
                           (Some (with_color (lit "red")))) sample_world)
                  (lit "A") None
                  (rtc_once _ _ (step_drawText _ _ _ _ _)))).
Defined.

Lemma isImageFontConfigData_encode_witness :
  isImageFontConfigData (encode sample_data) = true
  /\ view_config (encode sample_data) = config_of sample_data.
Proof.
  destruct (isImageFontConfigData_encode sample_data) as [Haccept Hview].
  split; [|exact Hview].
  apply Haccept.
  apply (bool_decide_unpack
           (map_Forall (fun k _ => List.length k = 1%nat)
              (data_characters sample_data))).
  vm_compute. exact I.
Defined.

Lemma accepted_characters_witness :
  isImageFontConfigData (encode sample_data) = true
  /\ characters (config (constructor sample_textures
                           (view_config (encode sample_data))))
     !! [55357%N; 56832%N] = None.
Proof.
  assert (Haccept : isImageFontConfigData (encode sample_data) = true)
    by (vm_compute; reflexivity).
  split; [exact Haccept|].
  apply (proj1 (proj2 (accepted_characters (encode sample_data)
                         sample_textures Haccept))).
Defined.

Lemma characters_as_array_witness :
  isImageFontConfigData
    (VObject
       (<[lit "characters" :=
            VArray [encode_character_data (sample_character_data 0 37)]]>
          (<[lit "textureAtlasSize" := encode_vec2 (Vec2 8 5)]> ∅)))
  = true.
Proof.
  apply (characters_as_array
           (<[lit "textureAtlasSize" := encode_vec2 (Vec2 8 5)]> ∅)
           [encode_character_data (sample_character_data 0 37)]).
  - vm_compute. reflexivity.
  - split; [simpl; lia|]. repeat constructor.
Defined.

(** Loading the documentation's font stores it under its name and
    leaves the image where it was. *)
Example imageFontContentProcessor_sample :
  exists content,
    imageFontContentProcessor sample_textureAtlas sample_content
      (sample_item (CValue (encode sample_data))) (lit "font-spritesheet")
    = inr content
    /\ item_status <$> content !! lit "font" = Some (lit "processed")
    /\ content !! lit "font-spritesheet"
       = sample_content !! lit "font-spritesheet"
    /\ imageFontContentProcessor sample_textureAtlas sample_content
         (sample_item (CValue (encode sample_data))) (lit "missing")
       = inl (lit "Image 'missing' not found")
    /\ imageFontContentProcessor sample_textureAtlas sample_content
         (sample_item (CValue VNull)) (lit "missing")
       = inl (lit "Invalid image font config").
Proof. eexists. vm_compute. repeat split. Qed.


(* ------------------------------------------------------------------ *)
(** * What the guards and the recolouring never see *)

(** X13. A property the types do not name changes the verdict of
    neither guard. *)
Theorem guards_ignore_unknown_properties :
  forall (props : gmap jsstring JSValue) (name : jsstring) (x : JSValue),
    (~ In name [lit "textureAtlasSize"; lit "offset"; lit "scale";
                lit "defaultCharacterConfig"; lit "characters"] ->
     isImageFontConfigData (VObject (<[name := x]> props))
     = isImageFontConfigData (VObject props))
    /\ (~ In name [lit "textureAtlasPosition"; lit "offset"; lit "width";
                   lit "height"] ->
        forall includeTextureAtlasPosition,
          isImageFontCharacterConfigData (VObject (<[name := x]> props))
            includeTextureAtlasPosition
          = isImageFontCharacterConfigData (VObject props)
              includeTextureAtlasPosition).
Proof.
  intros props name x. split.
  - intros Hname.
    unfold isImageFontConfigData, required_vec2, optional_vec2,
      optional_number, property.
    rewrite !lookup_insert_ne
      by (intros ->; apply Hname; simpl; tauto).
    reflexivity.
  - intros Hname b.
    unfold isImageFontCharacterConfigData, required_vec2, optional_vec2,
      optional_number, property.
    rewrite !lookup_insert_ne
      by (intros ->; apply Hname; simpl; tauto).
    reflexivity.
Qed.

Lemma guards_ignore_unknown_properties_witness :
  isImageFontConfigData
    (VObject (<[lit "author" := VString (lit "me")]>
                (<[lit "textureAtlasSize" := encode_vec2 (Vec2 8 5)]> ∅)))
  = isImageFontConfigData
      (VObject (<[lit "textureAtlasSize" := encode_vec2 (Vec2 8 5)]> ∅)).
Proof.
  apply (proj1 (guards_ignore_unknown_properties
                  (<[lit "textureAtlasSize" := encode_vec2 (Vec2 8 5)]> ∅)
                  (lit "author") (VString (lit "me")))).
  intros H. repeat (destruct H as [H|H]; [discriminate H|]). exact H.
Defined.

Lemma getColoringMode_custom (options : ImageFontRenderingOptions) :
  getColoringMode options = custom -> is_Some (coloringFunction options).
Proof.
  unfold getColoringMode.
  destruct (coloringMode options) as [[]|], (coloringFunction options);
    simpl; intros H; try discriminate H; eauto.
Qed.

Lemma maintains_coloredTexture_log character texture options u s :
  maintains (fun w => Forall recoloring_ok (calls w))
    (coloredTexture character texture options (u :: s)).
Proof.
  intros w Hlog. unfold exec.
  destruct (Map_get (colorCache (this w))
              (getCacheKey character (u :: s) (getColoringMode options)))
    as [cached|] eqn:Hget.
  - rewrite (coloredTexture_hit w _ _ _ _ cached Hget). exact Hlog.
  - rewrite (coloredTexture_miss w _ _ _ _ Hget). cbn [snd calls].
    apply Forall_app. split; [exact Hlog|].
    constructor; [|constructor]. split; [discriminate|].
    apply getColoringMode_custom.
Qed.

(** One turn of the loop, for a property of the world that a draw call
    does not break. *)
Lemma maintains_drawCharacter_draw (P : World -> Prop)
    options actualScale actualY currentX character :
  (forall w image dx dy dw dh,
      P w ->
      P {| this := this w;
           calls := calls w ++ [DrawImage image dx dy dw dh] |}) ->
  (forall texture opts u s,
      options = Some opts -> color opts = Some (u :: s) ->
      maintains P (coloredTexture character texture opts (u :: s))) ->
  maintains P
    (drawCharacter options actualScale actualY currentX character).
Proof.
  intros Hdraw Hcolored. unfold drawCharacter.
  apply maintains_bind;
    [apply maintains_read_only, read_only_measureCharacterWidth|].
  intros characterWidth.
  apply maintains_bind; [apply maintains_read_only; intros w; reflexivity|].
  intros atlas. destruct (atlas !! character) as [texture|];
    [|apply maintains_read_only, read_only_ret].
  apply maintains_bind; [apply maintains_read_only; intros w; reflexivity|].
  intros cfg. apply maintains_bind.
  - destruct options as [opts|];
      [|apply maintains_read_only, read_only_ret].
    destruct (color opts) as [[|u s]|] eqn:Hcolor;
      try (apply maintains_read_only, read_only_ret).
    apply (Hcolored texture opts u s eq_refl Hcolor).
  - intros finalTexture. apply maintains_bind.
    + apply maintains_emit. intros w Hw. apply Hdraw, Hw.
    + intros _. apply maintains_read_only, read_only_ret.
Qed.

(** X14. Whatever an instance in use has been asked to draw, every run
    of the recolouring routine in its log was with a colour that is not
    empty and, when in custom mode, with a colouring function: without
    one the mode falls back to multiply before the routine is run. *)
Theorem recoloring_never_custom_without_function :
  forall w : World,
    in_use w -> Forall recoloring_ok (calls w).
Proof.
  intros w (atlas & cfg & Hsteps). revert w Hsteps. apply rtc_ind_r.
  - constructor.
  - intros w1 w2 _ Hstep IH.
    destruct Hstep as [w1 text options|w1 text x y options].
    + unfold exec. rewrite (read_only_measureText text options w1). exact IH.
    + apply (maintains_drawText (fun w => Forall recoloring_ok (calls w)));
        [|exact IH].
      intros actualScale actualY currentX character.
      apply maintains_drawCharacter_draw.
      * intros w image dx dy dw dh Hw. cbn [calls].
        apply Forall_app. split; [exact Hw|]. repeat constructor.
      * intros texture opts u s _ _. apply maintains_coloredTexture_log.
Qed.

Lemma recoloring_never_custom_without_function_witness :
  Forall recoloring_ok
    (calls
       (exec (drawText (lit "AB") 0 0
                (Some
                   {| opt_scale := None; monospace := None; kerning := None;
                      align := None; baseLine := None;
                      color := Some (lit "red");
                      coloringMode := Some custom;
                      coloringFunction := None |}))
          sample_world)).
Proof.
  apply recoloring_never_custom_without_function.
  exists sample_textures, sample_config.
  apply rtc_once. apply public_drawText.
Defined.


(* ------------------------------------------------------------------ *)
(** * Properties of the rescaling script *)







